(** * logparser: the log-line parser, the per-thread tracker and its queries

    A shallow embedding of [internal/logparsercore] (files [logline.go],
    [sync_log_writer.go] and the raw-file reader) together with the parts
    of Go's [strings], [time], [path/filepath] and [os] packages that the
    code calls.

    Conventions.
    - Go strings are byte strings: [string].
    - [time.Time] values are instants in UTC without a monotonic reading
      (every instant the program handles comes from [time.Parse] with a
      zone-less layout, or is the zero value): an instant is the number
      of nanoseconds since Go's zero time, 0001-01-01 00:00:00 UTC.
    - [int64] and [int] arithmetic is written with its wrap-around.
    - [float64] is the kernel's binary64.
    - a Go [map] is a [gmap]; a [range] over it visits every entry once,
      in an order the runtime chooses: the order is an explicit list,
      constrained to be a permutation of the map's entries. *)

From Stdlib Require Import ZArith Lia Ascii String List.
From Stdlib Require Import Floats.PrimFloat Numbers.Cyclic.Int63.Uint63.
From Stdlib Require Import Reals Lra.
From stdpp Require Import gmap strings list fin_maps.

#[local] Open Scope string_scope.
#[local] Open Scope Z_scope.

(** ** Byte strings *)

Fixpoint string_drop (n : nat) (s : string) : string :=
  match n, s with
  | O, _ => s
  | S n', String _ s' => string_drop n' s'
  | S _, EmptyString => EmptyString
  end.

(** [strings.Cut]: the text before and after the first occurrence of
    [sep], if there is one. *)
Fixpoint strings_Cut (sep s : string) : option (string * string) :=
  if String.prefix sep s then Some (EmptyString, string_drop (String.length sep) s)
  else match s with
       | EmptyString => None
       | String c s' =>
           match strings_Cut sep s' with
           | Some (before, after) => Some (String c before, after)
           | None => None
           end
       end.

(** [strings.SplitN(s, sep, 2)] for a non-empty separator. *)
Definition strings_SplitN2 (s sep : string) : list string :=
  match strings_Cut sep s with
  | Some (before, after) => [before; after]
  | None => [s]
  end.

(** [strings.Split(s, sep)] for a one-byte separator. *)
Fixpoint strings_Split1 (s : string) (sep : ascii) : list string :=
  match s with
  | EmptyString => [EmptyString]
  | String c s' =>
      if Ascii.eqb c sep then EmptyString :: strings_Split1 s' sep
      else match strings_Split1 s' sep with
           | tok :: toks => String c tok :: toks
           | [] => [String c EmptyString]
           end
  end.

(** ** Package [time] *)

Module time.

Definition Time := Z.
Definition Duration := Z.

Definition zero : Time := 0.

Definition Before (t u : Time) : bool := t <? u.
Definition After (t u : Time) : bool := u <? t.
Definition Equal (t u : Time) : bool := t =? u.

Definition minDuration : Duration := - 2 ^ 63.
Definition maxDuration : Duration := 2 ^ 63 - 1.

(** [t.Sub(u)]: the difference in nanoseconds when an [int64] holds
    it, otherwise the minimum or maximum [Duration]. *)
Definition Sub (t u : Time) : Duration :=
  let d := t - u in
  if (minDuration <=? d) && (d <=? maxDuration) then d
  else if Before t u then minDuration
  else maxDuration.

(** [d.Milliseconds()]: [int64(d) / 1e6], Go's truncating division. *)
Definition Milliseconds (d : Duration) : Z := Z.quot d 1000000.

(** *** Calendar *)

Definition isLeap (year : Z) : bool :=
  (year mod 4 =? 0) && (negb (year mod 100 =? 0) || (year mod 400 =? 0)).

Definition daysIn (month year : Z) : Z :=
  if month =? 2 then (if isLeap year then 29 else 28)
  else if (month =? 4) || (month =? 6) || (month =? 9) || (month =? 11) then 30
  else 31.

(** Days from 0001-01-01 to the first day of [year]. *)
Definition daysBeforeYear (year : Z) : Z :=
  let y := year - 1 in
  365 * y + y / 4 - y / 100 + y / 400.

Definition daysBeforeMonth (month year : Z) : Z :=
  let cum :=
    match month with
    | 1 => 0 | 2 => 31 | 3 => 59 | 4 => 90 | 5 => 120 | 6 => 151
    | 7 => 181 | 8 => 212 | 9 => 243 | 10 => 273 | 11 => 304 | _ => 334
    end in
  if (2 <? month) && isLeap year then cum + 1 else cum.

(** [time.Date(year, month, day, hour, min, sec, nsec, time.UTC)] for
    fields in their normal ranges. *)
Definition Date (year month day hour min sec nsec : Z) : Time :=
  let days := daysBeforeYear year + daysBeforeMonth month year + (day - 1) in
  ((days * 86400 + hour * 3600 + min * 60 + sec) * 1000000000) + nsec.

(** The civil date of a day number counted from 0001-01-01. *)
Definition civil (days : Z) : Z * Z * Z :=
  let z := days + 306 in
  let era := z / 146097 in
  let doe := z mod 146097 in
  let yoe := (doe - doe / 1460 + doe / 36524 - doe / 146096) / 365 in
  let doy := doe - (365 * yoe + yoe / 4 - yoe / 100) in
  let mp := (5 * doy + 2) / 153 in
  let d := doy - (153 * mp + 2) / 5 + 1 in
  let m := if mp <? 10 then mp + 3 else mp - 9 in
  let y := yoe + era * 400 + (if m <=? 2 then 1 else 0) in
  (y, m, d).

(** *** Decimal text *)

Definition digit_char (d : Z) : ascii := ascii_of_nat (48 + Z.to_nat d).

Fixpoint utoa_go (fuel : nat) (x : Z) (acc : string) : string :=
  match fuel with
  | O => acc
  | S fuel' =>
      let acc' := String (digit_char (x mod 10)) acc in
      if x / 10 =? 0 then acc' else utoa_go fuel' (x / 10) acc'
  end.

Definition utoa (x : Z) : string := utoa_go (S (Z.to_nat (Z.log2 x))) x EmptyString.

Fixpoint zeros (n : nat) : string :=
  match n with O => EmptyString | S n' => String "0" (zeros n') end.

(** [appendInt(b, x, width)]: decimal, zero-padded to [width]. *)
Definition appendInt (x : Z) (width : nat) : string :=
  let u := utoa (Z.abs x) in
  (if x <? 0 then "-" else "") +:+ zeros (width - String.length u) +:+ u.

(** The [.999999999] element: the fraction without trailing zeros,
    nothing at all when it is zero. *)
Fixpoint trim_zeros (fuel : nat) (n : Z) (w : nat) : string :=
  match fuel with
  | O => EmptyString
  | S fuel' =>
      if n =? 0 then EmptyString
      else if n mod 10 =? 0 then trim_zeros fuel' (n / 10) (w - 1)
      else "." +:+ appendInt n w
  end.

Definition formatNano (nsec : Z) : string := trim_zeros 10 nsec 9.

(** [t.String()], that is
    [t.Format("2006-01-02 15:04:05.999999999 -0700 MST")], of an
    instant in UTC. *)
Definition Time_String (t : Time) : string :=
  let secs := t / 1000000000 in
  let nsec := t mod 1000000000 in
  let days := secs / 86400 in
  let rem := secs mod 86400 in
  let '(y, m, d) := civil days in
  appendInt y 4 +:+ "-" +:+ appendInt m 2 +:+ "-" +:+ appendInt d 2 +:+ " "
    +:+ appendInt (rem / 3600) 2 +:+ ":" +:+ appendInt (rem mod 3600 / 60) 2
    +:+ ":" +:+ appendInt (rem mod 60) 2 +:+ formatNano nsec
    +:+ " +0000 UTC".

(** *** [time.Parse] with the layout ["2006-01-02 15:04:05,000"] *)

Definition isDigitChar (c : ascii) : bool :=
  (48 <=? nat_of_ascii c)%nat && (nat_of_ascii c <=? 57)%nat.

Definition digit_val (c : ascii) : Z := Z.of_nat (nat_of_ascii c) - 48.

(** [isDigit(s, i)] for i = 0 and i = 1. *)
Definition isDigit0 (s : string) : bool :=
  match s with String c _ => isDigitChar c | _ => false end.
Definition isDigit1 (s : string) : bool :=
  match s with String _ (String c _) => isDigitChar c | _ => false end.

(** [getnum(s, fixed)]: a number of one or two digits, of exactly two
    when [fixed]. *)
Definition getnum (s : string) (fixed : bool) : option (Z * string) :=
  if negb (isDigit0 s) then None
  else if negb (isDigit1 s) then
    if fixed then None
    else match s with
         | String c rest => Some (digit_val c, rest)
         | EmptyString => None
         end
  else match s with
       | String c1 (String c2 rest) => Some (digit_val c1 * 10 + digit_val c2, rest)
       | _ => None
       end.

(** [leadingInt]: the digits at the head of [s] and what follows. *)
Fixpoint leadingInt (acc : Z) (s : string) : Z * string :=
  match s with
  | String c s' => if isDigitChar c then leadingInt (acc * 10 + digit_val c) s' else (acc, s)
  | EmptyString => (acc, s)
  end.

(** [atoi]: an optional sign, then digits up to the end of [s]. *)
Definition atoi (s : string) : option Z :=
  let '(neg, s1) :=
    match s with
    | String "-" r => (true, r)
    | String "+" r => (false, r)
    | _ => (false, s)
    end in
  match leadingInt 0 s1 with
  | (q, EmptyString) => Some (if neg then - q else q)
  | _ => None
  end.

Fixpoint cutspace (s : string) : string :=
  match s with
  | String " " s' => cutspace s'
  | _ => s
  end.

(** [skip(value, prefix)]: [value] without the literal text [prefix],
    where a run of spaces in the layout stands for any run of spaces
    in the value. [inrun] holds while the spaces of one run of
    [prefix] are consumed. *)
Fixpoint skip_go (inrun : bool) (value prefix : string) : option string :=
  match prefix with
  | EmptyString => Some value
  | String " " prefix' =>
      if inrun then skip_go true value prefix'
      else match value with
           | String v _ =>
               if Ascii.eqb v " " then skip_go true (cutspace value) prefix'
               else None
           | EmptyString => skip_go true value prefix'
           end
  | String p prefix' =>
      match value with
      | String v value' => if Ascii.eqb v p then skip_go false value' prefix' else None
      | EmptyString => None
      end
  end.

Definition skip (value prefix : string) : option string := skip_go false value prefix.

Definition string_take (n : nat) (s : string) : string := String.substring 0 n s.

(** [parseNanoseconds(value, 4)] for the element [,000]: a comma or a
    period, then three bytes read by [atoi]; the result is in
    nanoseconds. *)
Definition parseNanoseconds4 (value : string) : option Z :=
  match value with
  | String c rest =>
      if Ascii.eqb c "." || Ascii.eqb c "," then
        match atoi (string_take 3 rest) with
        | Some ns => if ns <? 0 then None else Some (ns * 1000000)
        | None => None
        end
      else None
  | EmptyString => None
  end.

Definition in_range (lo x hi : Z) : bool := (lo <=? x) && (x <? hi).

(** The value is read element by element: year (four digits), [-],
    month (two digits), [-], day (two digits), spaces, hour (one or
    two digits), [:], minute, [:], second, then the separator and
    three digits of the fraction; nothing may follow. *)
Definition Parse (value : string) : option Time :=
  if negb ((4 <=? String.length value)%nat && isDigit0 value) then None else
  match atoi (string_take 4 value) with None => None | Some year =>
  match skip (string_drop 4 value) "-" with None => None | Some v1 =>
  match getnum v1 true with None => None | Some (month, v2) =>
  if negb (in_range 1 month 13) then None else
  match skip v2 "-" with None => None | Some v3 =>
  match getnum v3 true with None => None | Some (day, v4) =>
  match skip v4 " " with None => None | Some v5 =>
  match getnum v5 false with None => None | Some (hour, v6) =>
  if negb (in_range 0 hour 24) then None else
  match skip v6 ":" with None => None | Some v7 =>
  match getnum v7 true with None => None | Some (min, v8) =>
  if negb (in_range 0 min 60) then None else
  match skip v8 ":" with None => None | Some v9 =>
  match getnum v9 true with None => None | Some (sec, v10) =>
  if negb (in_range 0 sec 60) then None else
  if (String.length v10 <? 4)%nat then None else
  match parseNanoseconds4 v10 with None => None | Some nsec =>
  if negb (String.length (string_drop 4 v10) =? 0)%nat then None else
  if (day <? 1) || (daysIn month year <? day) then None else
  Some (Date year month day hour min sec nsec)
  end end end end end end end end end end end end.

End time.

(** ** Errors

    Go [error] values, by the way they are built. *)

Inductive error : Type :=
| errors_New (msg : string)                 (* errors.New(msg) *)
| errors_Wrap (cause : error) (msg : string) (* errors.Wrap(cause, msg), Wrapf *)
| errors_WrapText (cause inner : error)     (* errors.Wrap(cause, inner.Error()) *)
| time_ParseError (value : string)          (* what time.Parse returns *)
| os_ErrInvalid                             (* a method called on a nil *os.File *)
| os_PathError (op path : string)           (* a failed system call on a path *)
| bufio_ScanError.                          (* what scanner.Err() may hold *)

Inductive result (A : Type) : Type :=
| Ok (a : A)
| Err (e : error).
Arguments Ok {A} a.
Arguments Err {A} e.

(** ** Package [path/filepath] (and [path]) on a slash-separated system *)

Definition string_eqb (a b : string) : bool := bool_decide (a = b).

(** [Clean], component by component: [stack] holds the components kept
    so far, the last one first. *)
Fixpoint clean_go (rooted : bool) (comps stack : list string) : list string :=
  match comps with
  | [] => stack
  | c :: comps' =>
      if string_eqb c "" || string_eqb c "." then clean_go rooted comps' stack
      else if string_eqb c ".." then
        match stack with
        | top :: rest =>
            if string_eqb top ".." then clean_go rooted comps' (c :: stack)
            else clean_go rooted comps' rest
        | [] => if rooted then clean_go rooted comps' stack
                else clean_go rooted comps' [c]
        end
      else clean_go rooted comps' (c :: stack)
  end.

Fixpoint join_slash (comps : list string) : string :=
  match comps with
  | [] => ""
  | [c] => c
  | c :: comps' => c +:+ "/" +:+ join_slash comps'
  end.

Definition filepath_Clean (path : string) : string :=
  let rooted := String.prefix "/" path in
  let kept := rev (clean_go rooted (strings_Split1 path "/") []) in
  if rooted then "/" +:+ join_slash kept
  else match kept with [] => "." | _ => join_slash kept end.

(** [filepath.Join(a, b)]: empty elements are ignored, the rest joined
    with a slash and cleaned. *)
Definition filepath_Join (a b : string) : string :=
  if string_eqb a "" then (if string_eqb b "" then "" else filepath_Clean b)
  else filepath_Clean (a +:+ "/" +:+ b).

(** ** The operating system

    The files the program appends to, by path, and the raw input. A
    call fails when the environment says so: [open_denied] and
    [write_denied] are the paths on which [os.OpenFile] and a write to
    an open file fail. A raw input file is the sequence of lines its
    [bufio.Scanner] yields and the error the scanner ends with. *)

Record RawFile : Type := {
  raw_lines : list string;
  raw_scan_err : option error;
}.

Record World : Type := {
  files : gmap string string;
  open_denied : gset string;
  write_denied : gset string;
  input_dir : result (list string);   (* os.ReadDir(InputLogsDirPath) *)
  raw_files : gmap string RawFile;    (* the readable files, by path *)
}.

Definition with_files (w : World) (fs : gmap string string) : World :=
  {| files := fs; open_denied := open_denied w; write_denied := write_denied w;
     input_dir := input_dir w; raw_files := raw_files w |}.

(** An open file is known by its path; [None] is the nil [*os.File]. *)
Definition os_File := option string.

(** [os.OpenFile(path, O_RDWR|O_CREATE|O_APPEND, 0666)]. *)
Definition os_OpenFile (path : string) (w : World) : World * result string :=
  if decide (path ∈ open_denied w) then (w, Err (os_PathError "open" path))
  else match files w !! path with
       | Some _ => (w, Ok path)
       | None => (with_files w (<[path := ""]> (files w)), Ok path)
       end.

(** [f.Write(b)] on a file opened for appending. *)
Definition File_Write (f : os_File) (b : string) (w : World) : World * option error :=
  match f with
  | None => (w, Some os_ErrInvalid)
  | Some path =>
      if decide (path ∈ write_denied w) then (w, Some (os_PathError "write" path))
      else (with_files w (<[path := default "" (files w !! path) +:+ b]> (files w)), None)
  end.

(** ** logline.go *)

Definition LogLineParseErr : error := errors_New "log line parse error".

Record LogLine : Type := {
  processID : string;
  threadID : string;
  threadName : string;
  timestamp : time.Time;
  message : string;
}.

Definition ParseLogline (lineText : string) : result LogLine :=
  match strings_SplitN2 lineText "::" with
  | [head; tail] =>
      match strings_Split1 head ":" with
      | [pid; thid] =>
          match strings_SplitN2 tail " - " with
          | [nameTs; msg] =>
              match strings_SplitN2 nameTs " " with
              | [thName; tsText] =>
                  match time.Parse tsText with
                  | Some ts =>
                      Ok {| processID := pid; threadID := thid; threadName := thName;
                            timestamp := ts; message := msg |}
                  | None => Err (errors_WrapText LogLineParseErr (time_ParseError tsText))
                  end
              | _ => Err LogLineParseErr
              end
          | _ => Err LogLineParseErr
          end
      | _ => Err LogLineParseErr
      end
  | _ => Err LogLineParseErr
  end.

Definition ProcessID (ll : LogLine) : string := processID ll.
Definition ThreadId (ll : LogLine) : string := threadID ll.
Definition ThreadName (ll : LogLine) : string := threadName ll.
Definition Timestamp (ll : LogLine) : time.Time := timestamp ll.
Definition Message (ll : LogLine) : string := message ll.

(** [fmt.Sprintf("%s:%s::%s %v - %s", ...)]: the verb [%v] prints a
    [time.Time] with its [String] method. *)
Definition LogLine_String (ll : LogLine) : string :=
  processID ll +:+ ":" +:+ threadID ll +:+ "::" +:+ threadName ll +:+ " "
    +:+ time.Time_String (timestamp ll) +:+ " - " +:+ message ll.

(** ** sync_log_writer.go *)

Definition mergeLogFilePath : string := "./mergedlogs".
Definition mergeLogFileExtension : string := "log".
Definition threadLogsStartMarker : string := "**START**".
Definition threadLogsEndMarker : string := "**END**".

Definition newline : string := String (ascii_of_nat 10) EmptyString.

Record threadFileMetadata : Type := {
  processId : string;
  logsStartTimestamp : time.Time;
  logsEndTimestamp : time.Time;
  logFd : os_File;
  logFilepath : string;
}.

(** The map holds pointers, one per key and held nowhere else: a write
    through the pointer of a key is an update of the map at that key. *)
Record SyncLogWriter : Type := {
  threadsMetadata : gmap string threadFileMetadata;
}.

Definition NewLogWriter : SyncLogWriter := {| threadsMetadata := ∅ |}.

Definition State : Type := SyncLogWriter * World.

(** The path [initialize] opens for the thread of [ll]. *)
Definition threadLogFilePath (ll : LogLine) : string :=
  filepath_Join mergeLogFilePath
    (ProcessID ll +:+ "-" +:+ ThreadId ll +:+ "." +:+ mergeLogFileExtension).

Definition initialize (ll : LogLine) (st : State) : State * result threadFileMetadata :=
  let '(slw, w) := st in
  if negb (string_eqb (Message ll) threadLogsStartMarker)
  then (st, Err (errors_New "invalid start of thread logs"))
  else
    let filePath := threadLogFilePath ll in
    match os_OpenFile filePath w with
    | (w', Err err) => ((slw, w'), Err err)
    | (w', Ok file) =>
        let thState := {| processId := ProcessID ll;
                          logsStartTimestamp := Timestamp ll;
                          logsEndTimestamp := time.zero;
                          logFd := Some file;
                          logFilepath := filePath |} in
        (({| threadsMetadata := <[ThreadId ll := thState]> (threadsMetadata slw) |}, w'),
         Ok thState)
    end.

(** [thState] is the entry of the map at the key [ThreadId ll]. *)
Definition writeLogLine (ll : LogLine) (thState : threadFileMetadata) (st : State)
  : State * option error :=
  let '(slw, w) := st in
  let msgWithLineBreak := LogLine_String ll +:+ newline in
  match File_Write (logFd thState) msgWithLineBreak w with
  | (w', Some err) =>
      ((slw, w'),
       Some (errors_Wrap err ("error occurred while writing to [" +:+ logFilepath thState +:+ "]")))
  | (w', None) =>
      if string_eqb (Message ll) threadLogsEndMarker then
        let closed := {| processId := processId thState;
                         logsStartTimestamp := logsStartTimestamp thState;
                         logsEndTimestamp := Timestamp ll;
                         logFd := None;
                         logFilepath := logFilepath thState |} in
        (({| threadsMetadata := <[ThreadId ll := closed]> (threadsMetadata slw) |}, w'), None)
      else ((slw, w'), None)
  end.

Definition Write (ll : LogLine) (st : State) : State * option error :=
  match threadsMetadata (fst st) !! ThreadId ll with
  | Some thState => writeLogLine ll thState st
  | None =>
      match initialize ll st with
      | (st', Err err) =>
          (st', Some (errors_Wrap err "error occurred while initializing log section"))
      | (st', Ok thState) => writeLogLine ll thState st'
      end
  end.

(** Records handed to [Write] one after the other, whatever each call
    returns. *)
Definition WriteAll (recs : list LogLine) (st : State) : State :=
  foldl (fun st ll => fst (Write ll st)) st recs.

(** The errors of those calls, in order. *)
Fixpoint WriteAll_errors (recs : list LogLine) (st : State) : list (option error) :=
  match recs with
  | [] => []
  | ll :: recs' => snd (Write ll st) :: WriteAll_errors recs' (fst (Write ll st))
  end.

(** A [range] over a map visits each entry once, in some order. *)
Definition ranges {A : Type} (m : gmap string A) (order : list (string * A)) : Prop :=
  order ≡ₚ map_to_list m.

(** The type [ThreadInfo] is declared outside the files at hand; its
    three fields are those the composite literal in
    [GetActiveThreadCountBetweenInterval] sets. *)
Record ThreadInfo : Type := {
  ti_ProcessID : string;
  ti_ThreadId : string;
  ti_ThreadFileName : string;
}.

Definition threadInfoOf (thID : string) (thMetadata : threadFileMetadata) : ThreadInfo :=
  {| ti_ProcessID := processId thMetadata;
     ti_ThreadId := thID;
     ti_ThreadFileName := logFilepath thMetadata |}.

(** [order] is the order in which the loop visits [slw.threadsMetadata]. *)
Definition GetActiveThreadCountBetweenInterval
    (order : list (string * threadFileMetadata)) (startTime endTime : time.Time)
  : list ThreadInfo :=
  foldl (fun thList '(thID, thMetadata) =>
           if time.Before endTime (logsStartTimestamp thMetadata)
              || time.After startTime (logsEndTimestamp thMetadata)
           then thList
           else (thList ++ [threadInfoOf thID thMetadata])%list)
        [] order.

(** Go's [int] and [int64] on a 64-bit platform. *)
Definition wrap64 (z : Z) : Z := (z + 2 ^ 63) mod 2 ^ 64 - 2 ^ 63.
Definition int_add (a b : Z) : Z := wrap64 (a + b).

(** The test of the inner loop of [GetMaxConcurrencyAndEpoch]. *)
Definition startsWithin (thMetadataInner thMetadata : threadFileMetadata) : bool :=
  time.Equal (logsStartTimestamp thMetadataInner) (logsStartTimestamp thMetadata)
  || (time.After (logsStartTimestamp thMetadataInner) (logsStartTimestamp thMetadata)
      && time.Before (logsStartTimestamp thMetadataInner) (logsEndTimestamp thMetadata)).

(** One turn of the outer loop: [memo[thId] = 0], then the inner loop. *)
Definition countFor (thId : string) (thMetadata : threadFileMetadata)
    (innerOrder : list (string * threadFileMetadata)) (memo : gmap string Z)
  : gmap string Z :=
  foldl (fun memo '(_, thMetadataInner) =>
           if startsWithin thMetadataInner thMetadata
           then <[thId := int_add (default 0 (memo !! thId)) 1]> memo
           else memo)
        (<[thId := 0]> memo) innerOrder.

(** The first loop nest: [order] is the order of the outer loop,
    [innerOrder thId] that of the inner loop in the turn of [thId]. *)
Definition buildMemo (order : list (string * threadFileMetadata))
    (innerOrder : string -> list (string * threadFileMetadata)) : gmap string Z :=
  foldl (fun memo '(thId, thMetadata) => countFor thId thMetadata (innerOrder thId) memo)
        ∅ order.

(** The second loop, over [memo] in the order [memoOrder]; [None] is
    the panic of dereferencing the nil pointer a missing key gives. *)
Definition pickMax (slw : SyncLogWriter) (memoOrder : list (string * Z))
  : option (Z * time.Time) :=
  foldl (fun acc '(thId, thCount) =>
           match acc with
           | None => None
           | Some (maxConcurrency, epoch) =>
               if maxConcurrency <? thCount then
                 match threadsMetadata slw !! thId with
                 | Some thMetadata => Some (thCount, logsStartTimestamp thMetadata)
                 | None => None
                 end
               else Some (maxConcurrency, epoch)
           end)
        (Some (0, time.zero)) memoOrder.

(** [memoOrder memo] is the order in which the second loop visits
    [memo]. *)
Definition GetMaxConcurrencyAndEpoch (slw : SyncLogWriter)
    (order : list (string * threadFileMetadata))
    (innerOrder : string -> list (string * threadFileMetadata))
    (memoOrder : gmap string Z -> list (string * Z)) : option (Z * time.Time) :=
  let memo := buildMemo order innerOrder in
  pickMax slw (memoOrder memo).

(** The orders the runtime may choose in one call. *)
Definition validOrders (slw : SyncLogWriter)
    (order : list (string * threadFileMetadata))
    (innerOrder : string -> list (string * threadFileMetadata))
    (memoOrder : gmap string Z -> list (string * Z)) : Prop :=
  ranges (threadsMetadata slw) order
  ∧ (∀ thId, ranges (threadsMetadata slw) (innerOrder thId))
  ∧ (∀ memo, ranges memo (memoOrder memo)).

(** *** Runtime statistics

    The arithmetic of [GetAvgStdThreadRuntime] on [float64], as an
    interface: the program runs on binary64; the same text read over
    the real numbers is what it approximates. *)
Class Float64Ops (F : Type) : Type := {
  f_zero : F;
  f_of_int64 : Z -> F;           (* float64(x) of an int64 or int *)
  f_add : F -> F -> F;
  f_sub : F -> F -> F;
  f_div : F -> F -> F;
  f_square : F -> F;             (* math.Pow(x, 2) *)
  f_sqrt : F -> F;               (* math.Sqrt(x) *)
}.

(** Conversion of a 64-bit integer, to the nearest binary64. *)
Definition float64_of_int64 (z : Z) : float :=
  match z with
  | Z0 => PrimFloat.zero
  | Zpos _ =>
      if z <? 2 ^ 63 then PrimFloat.of_uint63 (Uint63.of_Z z)
      else 9223372036854775808%float
  | Zneg _ =>
      if - 2 ^ 63 <? z then PrimFloat.opp (PrimFloat.of_uint63 (Uint63.of_Z (- z)))
      else PrimFloat.opp 9223372036854775808%float
  end.

(** binary64: [math.Pow(x, 2)] is the rounded product of [x] with
    itself, [math.Sqrt] the rounded square root. *)
#[export] Instance binary64 : Float64Ops float := {|
  f_zero := PrimFloat.zero;
  f_of_int64 := float64_of_int64;
  f_add := PrimFloat.add;
  f_sub := PrimFloat.sub;
  f_div := PrimFloat.div;
  f_square := fun x => PrimFloat.mul x x;
  f_sqrt := PrimFloat.sqrt;
|}.


Definition runtimeMs (thMetadata : threadFileMetadata) : Z :=
  time.Milliseconds
    (time.Sub (logsEndTimestamp thMetadata) (logsStartTimestamp thMetadata)).

(** The first loop: the sum of the runtimes, an [int64]. *)
Definition aggRuntimeOf (order : list (string * threadFileMetadata)) : Z :=
  foldl (fun aggRuntime '(_, thMetadata) => int_add aggRuntime (runtimeMs thMetadata))
        0 order.

Section Stats.
Context {F : Type} `{Float64Ops F}.

(** [order1] and [order2] are the orders of the two loops. *)
Definition GetAvgStdThreadRuntime_on (slw : SyncLogWriter)
    (order1 order2 : list (string * threadFileMetadata)) : F * F :=
  let n := f_of_int64 (Z.of_nat (size (threadsMetadata slw))) in
  let avgRuntime := f_div (f_of_int64 (aggRuntimeOf order1)) n in
  let stdSum :=
    foldl (fun stdSum '(_, thMetadata) =>
             f_add stdSum
               (f_square (f_sub avgRuntime (f_of_int64 (runtimeMs thMetadata)))))
          f_zero order2 in
  let std := f_sqrt (f_div stdSum n) in
  (avgRuntime, std).
End Stats.

(** The program. *)
Definition GetAvgStdThreadRuntime (slw : SyncLogWriter)
    (order1 order2 : list (string * threadFileMetadata)) : float * float :=
  GetAvgStdThreadRuntime_on (F := float) slw order1 order2.


(** ** The raw-file reader *)

(** Modelled from the spec: the constant [InputLogsDirPath] is declared
    outside the files at hand; the run instructions name the directory
    of the input files. *)
Definition InputLogsDirPath : string := "./rawlogs".

(** The loop of [convertProcessLogFile] over the lines the scanner
    yields: the first error ends it. *)
Fixpoint convertLines (lines : list string) (st : State) : State * option error :=
  match lines with
  | [] => (st, None)
  | lineText :: lines' =>
      match ParseLogline lineText with
      | Err err => (st, Some err)
      | Ok llObj =>
          match Write llObj st with
          | (st', Some err) => (st', Some err)
          | (st', None) => convertLines lines' st'
          end
      end
  end.

Definition convertProcessLogFile (logfileName : string) (st : State)
  : State * option error :=
  match raw_files (snd st) !! logfileName with
  | None => (st, Some (os_PathError "open" logfileName))
  | Some fd =>
      match convertLines (raw_lines fd) st with
      | (st', Some err) => (st', Some err)
      | (st', None) => (st', raw_scan_err fd)
      end
  end.

(** The result of [convertProcessLogFile] is not looked at. *)
Definition ProcessRawLogFiles (st : State) : State * option error :=
  match input_dir (snd st) with
  | Err err => (st, Some err)
  | Ok processesLogDirEntries =>
      (foldl (fun st dirEntry =>
                fst (convertProcessLogFile (filepath_Join InputLogsDirPath dirEntry) st))
             st processesLogDirEntries,
       None)
  end.

(** ** The properties of the queries and of the tracker, as the specification words them *)

(** A thread [B] starts within the lifetime of [A]: its start lies in
    the interval from the start of [A], included, to the end of [A],
    excluded; an equal start counts. *)
Definition startsInLifetimeOf (A B : threadFileMetadata) : Prop :=
  logsStartTimestamp A <= logsStartTimestamp B < logsEndTimestamp A
  ∨ logsStartTimestamp B = logsStartTimestamp A.

#[export] Instance startsInLifetimeOf_dec A B : Decision (startsInLifetimeOf A B).
Proof. unfold startsInLifetimeOf. apply _. Defined.

(** A thread is alive at an instant of its lifetime, and the
    concurrency at an instant is the number of threads alive then. *)
Definition aliveAt (t : time.Time) (A : threadFileMetadata) : Prop :=
  logsStartTimestamp A <= t <= logsEndTimestamp A.

Definition concurrencyAt (m : gmap string threadFileMetadata) (t : time.Time) : nat :=
  length (filter (fun e : string * threadFileMetadata => aliveAt t e.2) (map_to_list m)).

(** The concurrency count of [A]: the threads of the table that start
    within its lifetime. *)
Definition concurrencyCount (m : gmap string threadFileMetadata)
    (A : threadFileMetadata) : nat :=
  length (filter (fun e : string * threadFileMetadata => startsInLifetimeOf A e.2)
                 (map_to_list m)).

(** The line [writeLogLine] appends for a record. *)
Definition lineOf (ll : LogLine) : string := LogLine_String ll +:+ newline.

(** The records of one thread, in their order of arrival. *)
Definition recordsOf (k : string) (recs : list LogLine) : list LogLine :=
  filter (fun ll => ThreadId ll = k) recs.

(** The text of a store that holds the given records, one line each. *)
Fixpoint rendered (recs : list LogLine) : string :=
  match recs with
  | [] => ""
  | ll :: recs' => lineOf ll +:+ rendered recs'
  end.

(** The two conditions on a stream, in words: the first record of
    each thread is a start marker; no record of a thread follows the
    end marker of that thread. *)
Definition firstIsStart (recs : list LogLine) : Prop :=
  ∀ pre ll suf, recs = (pre ++ ll :: suf)%list ->
    (∀ ll', ll' ∈ pre -> ThreadId ll' ≠ ThreadId ll) ->
    Message ll = threadLogsStartMarker.

Definition noneAfterEnd (recs : list LogLine) : Prop :=
  ∀ pre ll suf, recs = (pre ++ ll :: suf)%list ->
    Message ll = threadLogsEndMarker ->
    ∀ ll', ll' ∈ suf -> ThreadId ll' ≠ ThreadId ll.

(** Different threads are given different files. *)
Definition distinctFiles (recs : list LogLine) : Prop :=
  ∀ l1 l2, l1 ∈ recs -> l2 ∈ recs ->
    threadLogFilePath l1 = threadLogFilePath l2 -> ThreadId l1 = ThreadId l2.

(** The files of the threads do not exist yet, and no call of the
    operating system fails. *)
Definition freshWorld (w : World) (recs : list LogLine) : Prop :=
  open_denied w = ∅ ∧ write_denied w = ∅
  ∧ ∀ ll, ll ∈ recs -> files w !! threadLogFilePath ll = None.

(** ** Auxiliary definitions of the proofs *)

(** The test of [GetActiveThreadCountBetweenInterval] on one entry. *)
Definition activeIn (startTime endTime : time.Time)
    (entry : string * threadFileMetadata) : bool :=
  negb (time.Before endTime (logsStartTimestamp entry.2)
        || time.After startTime (logsEndTimestamp entry.2)).

(** The count of [A] over a list of entries. *)
Definition countIn (l : list (string * threadFileMetadata)) (A : threadFileMetadata) : nat :=
  length (filter (fun e : string * threadFileMetadata => startsInLifetimeOf A e.2) l).

(** The runtimes the loops of [GetAvgStdThreadRuntime] meet, in the
    order of the loop. *)
Definition runtimesAlong (order : list (string * threadFileMetadata)) : list Z :=
  map (fun e : string * threadFileMetadata => runtimeMs e.2) order.

Definition sumZ (xs : list Z) : Z := fold_right Z.add 0 xs.


(** The second loop of [GetAvgStdThreadRuntime] on binary64, over the
    runtimes it meets. *)
Definition stdSumAlong (avgRuntime : float) (runtimes : list Z) : float :=
  foldl (fun stdSum r =>
           PrimFloat.add stdSum
             (PrimFloat.mul (PrimFloat.sub avgRuntime (float64_of_int64 r))
                            (PrimFloat.sub avgRuntime (float64_of_int64 r))))
        PrimFloat.zero runtimes.

(** The life of a thread in the stream: its first record is a start
    marker, and no record follows its end marker. [opened] are the
    threads seen so far, [closed] those whose end marker was seen. *)
Fixpoint followsProtocol (opened closed : gset string) (recs : list LogLine) : bool :=
  match recs with
  | [] => true
  | ll :: recs' =>
      if decide (ThreadId ll ∈ closed) then false
      else if decide (ThreadId ll ∈ opened) then
        followsProtocol opened
          (if string_eqb (Message ll) threadLogsEndMarker
           then {[ThreadId ll]} ∪ closed else closed)
          recs'
      else string_eqb (Message ll) threadLogsStartMarker
           && followsProtocol ({[ThreadId ll]} ∪ opened) closed recs'
  end.

(** The same conditions for the rest of a stream, of which the threads
    [opened] were seen and the threads [closed] ended. *)
Definition protocolFrom (opened closed : gset string) (recs : list LogLine) : Prop :=
  (∀ pre ll suf, recs = (pre ++ ll :: suf)%list ->
     ThreadId ll ∉ opened ->
     (∀ ll', ll' ∈ pre -> ThreadId ll' ≠ ThreadId ll) ->
     Message ll = threadLogsStartMarker)
  ∧ noneAfterEnd recs
  ∧ (∀ ll, ll ∈ recs -> ThreadId ll ∉ closed).

(** The tracker agrees with the threads seen so far: a segment for
    each, its file open unless the thread is closed, no file shared by
    two segments, every file there, and an operating system where no
    call fails. *)
Definition tracks (st : State) (opened closed : gset string) : Prop :=
  (∀ k, k ∈ opened ↔ is_Some (threadsMetadata st.1 !! k))
  ∧ (∀ k md, threadsMetadata st.1 !! k = Some md ->
       logFd md = if decide (k ∈ closed) then None else Some (logFilepath md))
  ∧ (∀ k1 k2 md1 md2,
       threadsMetadata st.1 !! k1 = Some md1 -> threadsMetadata st.1 !! k2 = Some md2 ->
       logFilepath md1 = logFilepath md2 -> k1 = k2)
  ∧ (∀ k md, threadsMetadata st.1 !! k = Some md ->
       is_Some (files st.2 !! logFilepath md))
  ∧ open_denied st.2 = ∅ ∧ write_denied st.2 = ∅.

(** What a store holds before the records at hand are written. *)
Definition storeBefore (st : State) (k : string) : string :=
  match threadsMetadata st.1 !! k with
  | Some md => default "" (files st.2 !! logFilepath md)
  | None => ""
  end.

(** The segment [initialize] makes for the first record of a thread,
    and the segment [writeLogLine] leaves when it meets an end marker. *)
Definition newSegment (ll : LogLine) : threadFileMetadata :=
  {| processId := ProcessID ll; logsStartTimestamp := Timestamp ll;
     logsEndTimestamp := time.zero; logFd := Some (threadLogFilePath ll);
     logFilepath := threadLogFilePath ll |}.

Definition endedSegment (thState : threadFileMetadata) (ll : LogLine) : threadFileMetadata :=
  {| processId := processId thState;
     logsStartTimestamp := logsStartTimestamp thState;
     logsEndTimestamp := Timestamp ll; logFd := None;
     logFilepath := logFilepath thState |}.

(** The file of the thread of [ll]: that of its segment, or the one
    [initialize] is about to open. *)
Definition storePath (st : State) (ll : LogLine) : string :=
  match threadsMetadata st.1 !! ThreadId ll with
  | Some md => logFilepath md
  | None => threadLogFilePath ll
  end.

Definition nextOpened (opened : gset string) (ll : LogLine) : gset string :=
  {[ThreadId ll]} ∪ opened.
Definition nextClosed (closed : gset string) (ll : LogLine) : gset string :=
  if string_eqb (Message ll) threadLogsEndMarker then {[ThreadId ll]} ∪ closed else closed.

(** ** Sample inputs *)

Definition sampleWorld : World :=
  {| files := ∅; open_denied := ∅; write_denied := ∅;
     input_dir := Ok []; raw_files := ∅ |}.

Definition strayRecord : LogLine :=
  {| processID := "p1"; threadID := "t7"; threadName := "worker";
     timestamp := 63732596365200000000; message := "payload" |}.

(** The instant [t] seconds after 2020-08-09 18:59:00. *)
Definition atSecond (t : Z) : time.Time := 63732596340000000000 + t * 1000000000.

Definition markerRecord (thid : string) (t : Z) (msg : string) : LogLine :=
  {| processID := "p1"; threadID := thid; threadName := "worker";
     timestamp := atSecond t; message := msg |}.

(** Three threads, alive from second 0 to 10, from 2 to 8 and from 9 to
    15, as their start and end markers arrive. *)
Definition threeThreadsLog : list LogLine :=
  [ markerRecord "t1" 0 threadLogsStartMarker;
    markerRecord "t2" 2 threadLogsStartMarker;
    markerRecord "t2" 8 threadLogsEndMarker;
    markerRecord "t3" 9 threadLogsStartMarker;
    markerRecord "t1" 10 threadLogsEndMarker;
    markerRecord "t3" 15 threadLogsEndMarker ].

Definition closedSegment (thid : string) (from to : Z) : threadFileMetadata :=
  {| processId := "p1"; logsStartTimestamp := atSecond from;
     logsEndTimestamp := atSecond to; logFd := None;
     logFilepath := "mergedlogs/p1-" +:+ thid +:+ ".log" |}.

Definition threeThreads : SyncLogWriter :=
  {| threadsMetadata :=
       <["t1" := closedSegment "t1" 0 10]>
         (<["t2" := closedSegment "t2" 2 8]>
            (<["t3" := closedSegment "t3" 9 15]> ∅)) |}.

(** The orders of a run that visits every map in its canonical order. *)
Definition canonicalOrder (slw : SyncLogWriter) : list (string * threadFileMetadata) :=
  map_to_list (threadsMetadata slw).
Definition canonicalMemoOrder (memo : gmap string Z) : list (string * Z) :=
  map_to_list memo.

(** Three closed segments that ran for 100, 200 and 300 milliseconds. *)
Definition ranFor (thid : string) (from ms : Z) : threadFileMetadata :=
  {| processId := "p1"; logsStartTimestamp := atSecond from;
     logsEndTimestamp := atSecond from + ms * 1000000; logFd := None;
     logFilepath := "mergedlogs/p1-" +:+ thid +:+ ".log" |}.

Definition timedThreads : SyncLogWriter :=
  {| threadsMetadata :=
       <["t1" := ranFor "t1" 0 100]>
         (<["t2" := ranFor "t2" 1 200]>
            (<["t3" := ranFor "t3" 2 300]> ∅)) |}.

(** A thread that starts on 2020-08-09 at 18:59:25.200 and whose end
    marker never arrives. *)
Definition unendedLog : list LogLine :=
  [ {| processID := "p1"; threadID := "t1"; threadName := "worker";
       timestamp := 63732596365200000000; message := threadLogsStartMarker |};
    {| processID := "p1"; threadID := "t1"; threadName := "worker";
       timestamp := 63732596365300000000; message := "working" |} ].

Definition unendedSegment : threadFileMetadata :=
  {| processId := "p1"; logsStartTimestamp := 63732596365200000000;
     logsEndTimestamp := time.zero; logFd := Some "mergedlogs/p1-t1.log";
     logFilepath := "mergedlogs/p1-t1.log" |}.




(** The tracker after the markers of the thread that never ends. *)
Definition unendedTracker : SyncLogWriter :=
  fst (WriteAll unendedLog (NewLogWriter, sampleWorld)).

(** A segment from 10:00:00 to 10:00:05 on 2020-08-09. *)
Definition touchingTracker : SyncLogWriter :=
  {| threadsMetadata :=
       <["t1" := {| processId := "p1";
                    logsStartTimestamp := time.Date 2020 8 9 10 0 0 0;
                    logsEndTimestamp := time.Date 2020 8 9 10 0 5 0;
                    logFd := None;
                    logFilepath := "mergedlogs/p1-t1.log" |}]> ∅ |}.

(** A well-formed line of a raw log file. *)
Definition sampleLine : string := "p1:t1::worker 2020-08-09 18:59:25,200 - **START**".

Definition sampleRecord : LogLine :=
  {| processID := "p1"; threadID := "t1"; threadName := "worker";
     timestamp := 63732596365200000000; message := "**START**" |}.

(** An input directory with one file, whose only line is no log line. *)
Definition badInputWorld : World :=
  {| files := ∅; open_denied := ∅; write_denied := ∅;
     input_dir := Ok ["app.log"];
     raw_files := <["rawlogs/app.log" :=
                     {| raw_lines := ["this is not a log line"];
                        raw_scan_err := None |}]> ∅ |}.

(** A stream of two threads, interleaved. *)
Definition interleavedLog : list LogLine :=
  [ markerRecord "t1" 0 threadLogsStartMarker;
    markerRecord "t2" 1 threadLogsStartMarker;
    markerRecord "t1" 2 "one";
    markerRecord "t2" 3 "two";
    markerRecord "t1" 4 threadLogsEndMarker;
    markerRecord "t2" 5 "three" ].

(** A record that arrives after the end marker of its thread. *)
Definition lateLog : list LogLine :=
  [ markerRecord "t1" 0 threadLogsStartMarker;
    markerRecord "t1" 1 threadLogsEndMarker;
    markerRecord "t1" 2 "late" ].

(** ** Further definitions: text *)

(** The byte [c] occurs in [s]. *)
Fixpoint string_has (c : ascii) (s : string) : bool :=
  match s with
  | EmptyString => false
  | String a s' => Ascii.eqb a c || string_has c s'
  end.

(** The line of the input grammar made of the five fields, the
    timestamp as the text [stamp]. *)
Definition composeLine (pid thid thName stamp msg : string) : string :=
  pid +:+ ":" +:+ thid +:+ "::" +:+ thName +:+ " " +:+ stamp +:+ " - " +:+ msg.

(** ** Further definitions: the tracker *)

(** The segment after the records [rs] of its thread: an end marker
    ends it. *)
Definition advance (md : threadFileMetadata) (rs : list LogLine) : threadFileMetadata :=
  foldl (fun md ll =>
           if string_eqb (Message ll) threadLogsEndMarker then endedSegment md ll else md)
        md rs.

(** The segment of a thread of which [rs] are the records. *)
Definition expectedSegment (rs : list LogLine) : option threadFileMetadata :=
  match rs with
  | [] => None
  | first :: rest => Some (advance (newSegment first) rest)
  end.

(** All that the proof of the demultiplexing asks of a tracker and of
    the records that are about to be written to it. *)
Definition ready (st : State) (opened closed : gset string) (recs : list LogLine) : Prop :=
  tracks st opened closed
  ∧ followsProtocol opened closed recs = true
  ∧ distinctFiles recs
  ∧ (∀ ll k md, ll ∈ recs -> threadsMetadata st.1 !! k = Some md ->
       threadLogFilePath ll = logFilepath md -> ThreadId ll = k)
  ∧ (∀ ll, ll ∈ recs -> ThreadId ll ∉ opened -> files st.2 !! threadLogFilePath ll = None).

(** A world in which the file of a thread is left from an earlier run. *)
Definition rerunWorld : World :=
  {| files := <["mergedlogs/p1-t1.log" := "left from an earlier run"]> ∅;
     open_denied := ∅; write_denied := ∅;
     input_dir := Ok []; raw_files := ∅ |}.

(** ** Further definitions: the queries *)

(** An order of the second loop of [GetMaxConcurrencyAndEpoch] that
    visits the entry of the thread [k] first. *)
Definition memoOrderFirst (k : string) (memo : gmap string Z) : list (string * Z) :=
  match memo !! k with
  | Some c => (k, c) :: map_to_list (delete k memo)
  | None => map_to_list memo
  end.

(** ** Further definitions: the raw input *)

(** The lines of a raw log file are the texts of the records [recs]. *)
Definition parsesTo (lines : list string) (recs : list LogLine) : Prop :=
  Forall2 (fun lineText ll => ParseLogline lineText = Ok ll) lines recs.

(** The entries of the input directory are readable files, and
    [recss] are the records of their lines, file by file. *)
Definition holds (w : World) (entries : list string) (recss : list (list LogLine)) : Prop :=
  Forall2 (fun entry recs =>
             ∃ fd, raw_files w !! filepath_Join InputLogsDirPath entry = Some fd
                   ∧ parsesTo (raw_lines fd) recs)
          entries recss.

(** An input directory of two files that hold the stream
    [interleavedLog]; the scanner of the first ends with an error. *)
Definition splitInputWorld : World :=
  {| files := ∅; open_denied := ∅; write_denied := ∅;
     input_dir := Ok ["a.log"; "b.log"];
     raw_files :=
       <["rawlogs/a.log" :=
           {| raw_lines := [ "p1:t1::worker 2020-08-09 18:59:00,000 - **START**";
                             "p1:t2::worker 2020-08-09 18:59:01,000 - **START**";
                             "p1:t1::worker 2020-08-09 18:59:02,000 - one" ];
              raw_scan_err := Some bufio_ScanError |}]>
       (<["rawlogs/b.log" :=
           {| raw_lines := [ "p1:t2::worker 2020-08-09 18:59:03,000 - two";
                             "p1:t1::worker 2020-08-09 18:59:04,000 - **END**";
                             "p1:t2::worker 2020-08-09 18:59:05,000 - three" ];
              raw_scan_err := None |}]> ∅) |}.

(** What [ProcessRawLogFiles] takes from the file of a directory entry:
    nothing when the file cannot be opened, otherwise the records of
    its lines up to the end or to the first line that is no log line. *)
Definition taken (w : World) (entry : string) (recs : list LogLine) : Prop :=
  match raw_files w !! filepath_Join InputLogsDirPath entry with
  | None => recs = []
  | Some fd =>
      ∃ lines1 rest,
        raw_lines fd = (lines1 ++ rest)%list
        ∧ parsesTo lines1 recs
        ∧ match rest with
          | [] => True
          | bad :: _ => ∃ err, ParseLogline bad = Err err
          end
  end.

(** An input directory with a file that has a bad line in the middle,
    an entry that cannot be opened, and a good file. *)
Definition partialInputWorld : World :=
  {| files := ∅; open_denied := ∅; write_denied := ∅;
     input_dir := Ok ["a.log"; "gone.log"; "b.log"];
     raw_files :=
       <["rawlogs/a.log" :=
           {| raw_lines := [ "p1:t1::worker 2020-08-09 18:59:00,000 - **START**";
                             "this is not a log line";
                             "p1:t1::worker 2020-08-09 18:59:04,000 - **END**" ];
              raw_scan_err := None |}]>
       (<["rawlogs/b.log" :=
           {| raw_lines := [ "p1:t2::worker 2020-08-09 18:59:01,000 - **START**" ];
              raw_scan_err := None |}]> ∅) |}.

(** A world in which the file of a thread can be opened and not
    written to. *)
Definition readOnlyWorld : World :=
  {| files := ∅; open_denied := ∅; write_denied := {["mergedlogs/p1-t1.log"]};
     input_dir := Ok []; raw_files := ∅ |}.

(** * Properties *)

(** ** Instants and durations *)

Lemma Before_lt t u : time.Before t u = true ↔ t < u.
Proof. unfold time.Before. apply Z.ltb_lt. Qed.


Lemma Equal_eq t u : time.Equal t u = true ↔ t = u.
Proof. unfold time.Equal. apply Z.eqb_eq. Qed.

(** Within the range of a [Duration], [Sub] is the difference. *)
Lemma Sub_exact t u :
  time.minDuration <= t - u <= time.maxDuration -> time.Sub t u = t - u.
Proof.
  intros [Hlo Hhi]. unfold time.Sub.
  apply Z.leb_le in Hlo. apply Z.leb_le in Hhi. by rewrite Hlo, Hhi.
Qed.

Lemma Sub_saturates_low t u :
  t - u < time.minDuration -> time.Sub t u = time.minDuration.
Proof.
  intros Hlt. unfold time.Sub.
  replace (time.minDuration <=? t - u) with false by (symmetry; apply Z.leb_gt; lia).
  simpl. replace (time.Before t u) with true; [done|].
  symmetry. apply Before_lt. unfold time.minDuration in Hlt. lia.
Qed.

Lemma Sub_saturates_high t u :
  time.maxDuration < t - u -> time.Sub t u = time.maxDuration.
Proof.
  intros Hlt. unfold time.Sub.
  replace (t - u <=? time.maxDuration) with false by (symmetry; apply Z.leb_gt; lia).
  rewrite andb_false_r.
  replace (time.Before t u) with false; [done|].
  symmetry. apply Z.ltb_ge. unfold time.maxDuration in Hlt. lia.
Qed.

Lemma Sub_clamp t u :
  time.Sub t u = Z.max time.minDuration (Z.min time.maxDuration (t - u)).
Proof.
  destruct (Z_lt_le_dec (t - u) time.minDuration) as [Hlo|Hlo].
  { rewrite Sub_saturates_low by done. unfold time.minDuration, time.maxDuration in *. lia. }
  destruct (Z_lt_le_dec time.maxDuration (t - u)) as [Hhi|Hhi].
  { rewrite Sub_saturates_high by done. unfold time.minDuration, time.maxDuration in *. lia. }
  rewrite Sub_exact by lia. unfold time.minDuration, time.maxDuration in *. lia.
Qed.

(** ** 64-bit integers *)

Lemma wrap64_small z : - 2 ^ 63 <= z < 2 ^ 63 -> wrap64 z = z.
Proof. intros Hz. unfold wrap64. rewrite Z.mod_small; lia. Qed.

Lemma wrap64_add_l a b : wrap64 (wrap64 a + b) = wrap64 (a + b).
Proof.
  unfold wrap64.
  replace (((a + 2 ^ 63) mod 2 ^ 64 - 2 ^ 63) + b + 2 ^ 63)
    with ((a + 2 ^ 63) mod 2 ^ 64 + b) by lia.
  rewrite Zplus_mod_idemp_l. f_equal. f_equal. lia.
Qed.

(** ** The tracker: a first record that is not a start marker *)

Lemma string_eqb_true a b : string_eqb a b = true ↔ a = b.
Proof. unfold string_eqb. apply bool_decide_eq_true. Qed.

Lemma string_eqb_false a b : string_eqb a b = false ↔ a ≠ b.
Proof. unfold string_eqb. apply bool_decide_eq_false. Qed.

Lemma initialize_not_start ll st :
  Message ll ≠ threadLogsStartMarker ->
  initialize ll st = (st, Err (errors_New "invalid start of thread logs")).
Proof.
  intros Hmsg. destruct st as [slw w]. unfold initialize.
  apply string_eqb_false in Hmsg. by rewrite Hmsg.
Qed.

(** C7. A record of a thread the tracker has no segment for, whose
    message is not the start marker: [Write] returns the error "invalid
    start of thread logs" (wrapped by [Write] with the text of the
    initialisation step), and the whole state, the table of segments and
    every file, is as before. *)
Theorem Write_rejects_invalid_start (ll : LogLine) (slw : SyncLogWriter) (w : World) :
  threadsMetadata slw !! ThreadId ll = None ->
  Message ll ≠ threadLogsStartMarker ->
  Write ll (slw, w)
  = ((slw, w),
     Some (errors_Wrap (errors_New "invalid start of thread logs")
             "error occurred while initializing log section")).
Proof.
  intros Hnew Hmsg. unfold Write. simpl fst. rewrite Hnew.
  by rewrite initialize_not_start.
Qed.

Lemma Write_rejects_invalid_start_witness :
  Write strayRecord (NewLogWriter, sampleWorld)
  = ((NewLogWriter, sampleWorld),
     Some (errors_Wrap (errors_New "invalid start of thread logs")
             "error occurred while initializing log section")).
Proof.
  apply (Write_rejects_invalid_start strayRecord NewLogWriter sampleWorld).
  - reflexivity.
  - unfold Message, threadLogsStartMarker, strayRecord. simpl. discriminate.
Defined.

(** ** Query A: the threads active in a range *)

Lemma GetActive_foldl order startTime endTime acc :
  foldl (fun thList '(thID, thMetadata) =>
           if time.Before endTime (logsStartTimestamp thMetadata)
              || time.After startTime (logsEndTimestamp thMetadata)
           then thList
           else (thList ++ [threadInfoOf thID thMetadata])%list)
        acc order
  = (acc ++ map (fun e => threadInfoOf e.1 e.2)
              (filter (fun e => activeIn startTime endTime e = true) order))%list.
Proof.
  revert acc. induction order as [|[thID md] order IH]; intros acc; simpl.
  { by rewrite app_nil_r. }
  rewrite IH. unfold activeIn at 2. simpl.
  destruct (time.Before endTime (logsStartTimestamp md)
            || time.After startTime (logsEndTimestamp md)) eqn:Hc; simpl.
  - rewrite filter_cons_False; [done|]. unfold activeIn. simpl. rewrite Hc. simpl. congruence.
  - rewrite filter_cons_True; [|unfold activeIn; simpl; by rewrite Hc].
    simpl. by rewrite <- app_assoc.
Qed.

Lemma GetActive_elem slw order startTime endTime thID md :
  ranges (threadsMetadata slw) order ->
  threadsMetadata slw !! thID = Some md ->
  threadInfoOf thID md ∈ GetActiveThreadCountBetweenInterval order startTime endTime
  ↔ activeIn startTime endTime (thID, md) = true.
Proof.
  intros Hord Hmd. unfold GetActiveThreadCountBetweenInterval.
  rewrite GetActive_foldl. simpl. rewrite list_elem_of_fmap. split.
  - intros [[k md'] [Heq Hin]]. apply list_elem_of_filter in Hin as [Hact Hin].
    rewrite Hord in Hin. apply elem_of_map_to_list in Hin.
    assert (k = thID) as -> by (by inversion Heq).
    by simplify_eq.
  - intros Hact. exists (thID, md). split; [done|].
    apply list_elem_of_filter. split; [done|].
    rewrite Hord. by apply elem_of_map_to_list.
Qed.

Lemma activeIn_spec startTime endTime e :
  activeIn startTime endTime e = true
  ↔ ¬ (endTime < logsStartTimestamp e.2 ∨ logsEndTimestamp e.2 < startTime).
Proof.
  unfold activeIn. rewrite negb_true_iff, orb_false_iff.
  unfold time.Before, time.After. rewrite !Z.ltb_ge. lia.
Qed.

(** C6. Whatever order the loop takes, a segment of the tracker is in
    the answer for the range [t1, t2] exactly when neither [t2] is
    before its start nor [t1] after its end; for a segment and a range
    that are intervals (start no later than end) this is to say that
    some instant lies in both, so that a segment which meets the range
    in one instant only is in the answer. *)
Theorem GetActiveThreadCountBetweenInterval_overlap
    (slw : SyncLogWriter) (order : list (string * threadFileMetadata))
    (t1 t2 : time.Time) (thID : string) (md : threadFileMetadata) :
  ranges (threadsMetadata slw) order ->
  threadsMetadata slw !! thID = Some md ->
  (threadInfoOf thID md ∈ GetActiveThreadCountBetweenInterval order t1 t2
   ↔ ¬ (t2 < logsStartTimestamp md ∨ t1 > logsEndTimestamp md))
  ∧ (logsStartTimestamp md <= logsEndTimestamp md -> t1 <= t2 ->
     (threadInfoOf thID md ∈ GetActiveThreadCountBetweenInterval order t1 t2
      ↔ ∃ t, logsStartTimestamp md <= t <= logsEndTimestamp md ∧ t1 <= t <= t2))
  ∧ (logsEndTimestamp md = t1 -> logsStartTimestamp md <= t1 -> t1 <= t2 ->
     threadInfoOf thID md ∈ GetActiveThreadCountBetweenInterval order t1 t2).
Proof.
  intros Hord Hmd.
  pose proof (GetActive_elem slw order t1 t2 thID md Hord Hmd) as Hiff.
  rewrite activeIn_spec in Hiff. simpl in Hiff.
  split; [|split].
  - rewrite Hiff. lia.
  - intros Hseg Hrange. rewrite Hiff. split.
    + intros Hno. exists (Z.max (logsStartTimestamp md) t1). lia.
    + intros [t Ht]. lia.
  - intros Hend Hstart Hrange. apply Hiff. lia.
Qed.

(** ** Query B: the peak of concurrency *)

Lemma startsWithin_spec B A : startsWithin B A = true ↔ startsInLifetimeOf A B.
Proof.
  unfold startsWithin, startsInLifetimeOf, time.Equal, time.After, time.Before.
  rewrite orb_true_iff, andb_true_iff, Z.eqb_eq, !Z.ltb_lt. lia.
Qed.

(** For a segment that ends after it starts, the test is membership of
    the half-open interval. *)
Lemma startsInLifetimeOf_interval A B :
  logsStartTimestamp A < logsEndTimestamp A ->
  startsInLifetimeOf A B
  ↔ logsStartTimestamp A <= logsStartTimestamp B < logsEndTimestamp A.
Proof. unfold startsInLifetimeOf. lia. Qed.

Lemma countIn_le l A : (countIn l A <= length l)%nat.
Proof. unfold countIn. apply length_filter. Qed.

Lemma countIn_perm l1 l2 A : l1 ≡ₚ l2 -> countIn l1 A = countIn l2 A.
Proof. intros Hp. unfold countIn. by rewrite Hp. Qed.

Lemma countFor_foldl thId A inner : ∀ (memo : gmap string Z) (c : Z),
  0 <= c -> c + Z.of_nat (length inner) < 2 ^ 63 ->
  foldl (fun memo '(_, thMetadataInner) =>
           if startsWithin thMetadataInner A
           then <[thId := int_add (default 0 (memo !! thId)) 1]> memo
           else memo)
        (<[thId := c]> memo) inner
  = <[thId := c + Z.of_nat (countIn inner A)]> memo.
Proof.
  induction inner as [|[k B] inner IH]; intros memo c Hc Hlen.
  { simpl. f_equal. unfold countIn. simpl. lia. }
  cbn [foldl]. cbn [length] in Hlen.
  destruct (startsWithin B A) eqn:Hin.
  - rewrite lookup_insert_eq.
    assert (int_add (default 0 (Some c)) 1 = c + 1) as ->.
    { simpl. unfold int_add. apply wrap64_small. lia. }
    rewrite insert_insert_eq.
    rewrite IH by lia. f_equal. unfold countIn.
    rewrite filter_cons_True by (by apply startsWithin_spec). cbn [length]. lia.
  - rewrite IH by lia. f_equal. unfold countIn.
    rewrite filter_cons_False; [done|].
    intros Hs. apply startsWithin_spec in Hs. simpl in Hs. congruence.
Qed.

Lemma countFor_spec thId A inner memo :
  Z.of_nat (length inner) < 2 ^ 63 ->
  countFor thId A inner memo = <[thId := Z.of_nat (countIn inner A)]> memo.
Proof.
  intros Hlen. unfold countFor. rewrite (countFor_foldl thId A inner memo 0) by lia.
  f_equal.
Qed.

Lemma buildMemo_spec order innerOrder L :
  (∀ thId, innerOrder thId ≡ₚ L) ->
  Z.of_nat (length L) < 2 ^ 63 ->
  buildMemo order innerOrder
  = (fun A => Z.of_nat (countIn L A)) <$> (list_to_map (rev order) : gmap string threadFileMetadata).
Proof.
  intros Hinner Hlen. unfold buildMemo.
  induction order as [|[k A] order IH] using rev_ind.
  { simpl. by rewrite fmap_empty. }
  rewrite foldl_app. cbn [foldl]. rewrite IH.
  rewrite rev_app_distr. cbn [rev app]. rewrite list_to_map_cons, fmap_insert.
  rewrite countFor_spec by (rewrite (Permutation_length (Hinner k)); lia).
  by rewrite (countIn_perm _ _ _ (Hinner k)).
Qed.

Lemma list_to_map_ranges {A : Type} (m : gmap string A) order :
  ranges m order -> (list_to_map (rev order) : gmap string A) = m.
Proof.
  intros Hord. transitivity (list_to_map (map_to_list m) : gmap string A).
  - symmetry. apply list_to_map_proper; [apply NoDup_fst_map_to_list|].
    unfold ranges in Hord. rewrite <- Hord. apply Permutation_rev.
  - apply list_to_map_to_list.
Qed.

(** The first loop nest leaves, for each thread, its count. *)
Lemma buildMemo_ranges slw order innerOrder :
  ranges (threadsMetadata slw) order ->
  (∀ thId, ranges (threadsMetadata slw) (innerOrder thId)) ->
  Z.of_nat (size (threadsMetadata slw)) < 2 ^ 63 ->
  buildMemo order innerOrder
  = (fun A => Z.of_nat (concurrencyCount (threadsMetadata slw) A)) <$> threadsMetadata slw.
Proof.
  intros Hord Hinner Hsize.
  rewrite (buildMemo_spec order innerOrder (map_to_list (threadsMetadata slw))).
  - by rewrite (list_to_map_ranges _ _ Hord).
  - exact Hinner.
  - by rewrite length_map_to_list.
Qed.

Lemma concurrencyCount_pos m k A : m !! k = Some A -> (1 <= concurrencyCount m A)%nat.
Proof.
  intros Hk. unfold concurrencyCount.
  assert ((k, A) ∈ filter (fun e : string * threadFileMetadata => startsInLifetimeOf A e.2)
                          (map_to_list m)) as Hin.
  { apply list_elem_of_filter. split; [by right|]. by apply elem_of_map_to_list. }
  destruct (filter _ _) as [|e l]; [by apply elem_of_nil in Hin|]. simpl. lia.
Qed.

Lemma pickMax_foldl slw (cnt : threadFileMetadata -> Z) memoOrder :
  ∀ maxConcurrency epoch,
  (∀ k c, (k, c) ∈ memoOrder ->
     ∃ A, threadsMetadata slw !! k = Some A ∧ c = cnt A) ->
  ∃ maxC ep,
    foldl (fun acc '(thId, thCount) =>
             match acc with
             | None => None
             | Some (maxConcurrency, epoch) =>
                 if maxConcurrency <? thCount then
                   match threadsMetadata slw !! thId with
                   | Some thMetadata => Some (thCount, logsStartTimestamp thMetadata)
                   | None => None
                   end
                 else Some (maxConcurrency, epoch)
             end)
          (Some (maxConcurrency, epoch)) memoOrder
    = Some (maxC, ep)
    ∧ maxConcurrency <= maxC
    ∧ (∀ k c, (k, c) ∈ memoOrder -> c <= maxC)
    ∧ ((maxC = maxConcurrency ∧ ep = epoch)
       ∨ (∃ k A, threadsMetadata slw !! k = Some A ∧ (k, cnt A) ∈ memoOrder
                 ∧ maxC = cnt A ∧ ep = logsStartTimestamp A)).
Proof.
  induction memoOrder as [|[k c] memoOrder IH]; intros mx ep Hall.
  { exists mx, ep. simpl. split; [done|]. split; [lia|]. split; [|by left].
    intros k c Hin. by apply elem_of_nil in Hin. }
  cbn [foldl].
  destruct (Hall k c) as (A & HA & Hc); [apply elem_of_cons; by left|].
  assert (∀ k' c', (k', c') ∈ memoOrder ->
                   ∃ A', threadsMetadata slw !! k' = Some A' ∧ c' = cnt A') as Hall'.
  { intros k' c' Hin. apply Hall. apply elem_of_cons. by right. }
  destruct (mx <? c) eqn:Hlt.
  - apply Z.ltb_lt in Hlt. rewrite HA.
    destruct (IH c (logsStartTimestamp A) Hall') as (maxC & ep' & Hf & Hle & Hub & Hwho).
    exists maxC, ep'. split; [done|]. split; [lia|]. split.
    + intros k' c' Hin. apply elem_of_cons in Hin as [Heq|Hin]; [simplify_eq; lia|eauto].
    + right. destruct Hwho as [[-> ->]|(k' & A' & HA' & Hin & -> & ->)].
      * exists k, A. subst c. split; [done|]. split; [apply elem_of_cons; by left|done].
      * exists k', A'. split; [done|]. split; [apply elem_of_cons; by right|done].
  - apply Z.ltb_ge in Hlt.
    destruct (IH mx ep Hall') as (maxC & ep' & Hf & Hle & Hub & Hwho).
    exists maxC, ep'. split; [done|]. split; [lia|]. split.
    + intros k' c' Hin. apply elem_of_cons in Hin as [Heq|Hin]; [simplify_eq; lia|eauto].
    + destruct Hwho as [[-> ->]|(k' & A' & HA' & Hin & -> & ->)]; [by left|].
      right. exists k', A'. split; [done|]. split; [apply elem_of_cons; by right|done].
Qed.

(** What [GetMaxConcurrencyAndEpoch] returns, for every choice of the
    iteration orders. *)
Lemma maxConcurrency_spec slw order innerOrder
    (memoOrder : gmap string Z -> list (string * Z)) :
  validOrders slw order innerOrder memoOrder ->
  Z.of_nat (size (threadsMetadata slw)) < 2 ^ 63 ->
  ∃ maxC epoch,
    GetMaxConcurrencyAndEpoch slw order innerOrder memoOrder = Some (maxC, epoch)
    ∧ (∀ k A, threadsMetadata slw !! k = Some A ->
         Z.of_nat (concurrencyCount (threadsMetadata slw) A) <= maxC)
    ∧ (threadsMetadata slw = ∅ -> maxC = 0 ∧ epoch = time.zero)
    ∧ (threadsMetadata slw ≠ ∅ ->
       ∃ k A, threadsMetadata slw !! k = Some A
              ∧ maxC = Z.of_nat (concurrencyCount (threadsMetadata slw) A)
              ∧ epoch = logsStartTimestamp A).
Proof.
  intros (Hord & Hinner & Hmemo) Hsize.
  unfold GetMaxConcurrencyAndEpoch. cbv zeta.
  specialize (Hmemo (buildMemo order innerOrder)).
  set (visited := memoOrder (buildMemo order innerOrder)) in *.
  rewrite (buildMemo_ranges slw order innerOrder Hord Hinner Hsize) in Hmemo.
  set (cnt := fun A => Z.of_nat (concurrencyCount (threadsMetadata slw) A)) in *.
  assert (∀ k c, (k, c) ∈ visited ↔
                 ∃ A, threadsMetadata slw !! k = Some A ∧ c = cnt A) as Hmem.
  { intros k c. unfold ranges in Hmemo. rewrite Hmemo, elem_of_map_to_list, lookup_fmap_Some.
    split; intros (A & HA1 & HA2); exists A; auto. }
  destruct (pickMax_foldl slw cnt visited 0 time.zero) as (maxC & ep & Hf & Hle & Hub & Hwho).
  { intros k c Hin. by apply Hmem. }
  exists maxC, ep. split; [exact Hf|]. split; [|split].
  - intros k A HA. apply (Hub k). apply Hmem. eauto.
  - intros Hempty. destruct Hwho as [Hz|(k & A & HA & _)]; [done|].
    rewrite Hempty in HA. by rewrite lookup_empty in HA.
  - intros Hne. destruct Hwho as [[-> ->]|(k & A & HA & _ & -> & ->)]; [|eauto].
    apply map_choose in Hne as (k & A & HA).
    pose proof (concurrencyCount_pos _ _ _ HA) as Hpos.
    assert (cnt A <= 0) as Hbad by (apply (Hub k); apply Hmem; eauto).
    unfold cnt in Hbad. lia.
Qed.

(** C5. Whatever orders the three loops take: the table the first loop
    nest builds gives each thread [A] the number of threads [B] of the
    tracker, [A] among them, whose start lies in the interval from the
    start of [A], included, to the end of [A], excluded, an equal start
    counting; the call returns (it does not panic) the largest of these
    counts, and when the tracker has a thread the epoch returned is the
    start of a thread whose count is that maximum. For a thread [A]
    that ends after it starts, the threads counted are those whose
    start is in the half-open interval, no more. *)
Theorem GetMaxConcurrencyAndEpoch_counts
    (slw : SyncLogWriter) (order : list (string * threadFileMetadata))
    (innerOrder : string -> list (string * threadFileMetadata))
    (memoOrder : gmap string Z -> list (string * Z)) :
  validOrders slw order innerOrder memoOrder ->
  Z.of_nat (size (threadsMetadata slw)) < 2 ^ 63 ->
  (∀ k A, threadsMetadata slw !! k = Some A ->
     buildMemo order innerOrder !! k
     = Some (Z.of_nat (concurrencyCount (threadsMetadata slw) A))
     ∧ (1 <= concurrencyCount (threadsMetadata slw) A)%nat)
  ∧ (∃ maxC epoch,
      GetMaxConcurrencyAndEpoch slw order innerOrder memoOrder = Some (maxC, epoch)
      ∧ (∀ k A, threadsMetadata slw !! k = Some A ->
           Z.of_nat (concurrencyCount (threadsMetadata slw) A) <= maxC)
      ∧ (threadsMetadata slw ≠ ∅ ->
         ∃ k A, threadsMetadata slw !! k = Some A
                ∧ maxC = Z.of_nat (concurrencyCount (threadsMetadata slw) A)
                ∧ epoch = logsStartTimestamp A))
  ∧ (∀ A B, logsStartTimestamp A < logsEndTimestamp A ->
       startsInLifetimeOf A B
       ↔ logsStartTimestamp A <= logsStartTimestamp B < logsEndTimestamp A).
Proof.
  intros Hvalid Hsize. split; [|split].
  - intros k A HA. destruct Hvalid as (Hord & Hinner & _).
    rewrite (buildMemo_ranges slw order innerOrder Hord Hinner Hsize).
    rewrite lookup_fmap, HA. split; [done|]. by eapply concurrencyCount_pos.
  - destruct (maxConcurrency_spec slw order innerOrder memoOrder Hvalid Hsize)
      as (maxC & epoch & Hret & Hub & _ & Hwho).
    exists maxC, epoch. auto.
  - intros A B. apply startsInLifetimeOf_interval.
Qed.

Lemma validOrders_canonical slw :
  validOrders slw (canonicalOrder slw) (fun _ => canonicalOrder slw) canonicalMemoOrder.
Proof. unfold validOrders, ranges, canonicalMemoOrder, canonicalOrder. auto. Qed.

Lemma GetMaxConcurrencyAndEpoch_counts_witness :
  (∀ k A, threadsMetadata threeThreads !! k = Some A ->
     buildMemo (canonicalOrder threeThreads) (fun _ => canonicalOrder threeThreads) !! k
     = Some (Z.of_nat (concurrencyCount (threadsMetadata threeThreads) A))
     ∧ (1 <= concurrencyCount (threadsMetadata threeThreads) A)%nat)
  ∧ ∃ maxC epoch,
      GetMaxConcurrencyAndEpoch threeThreads (canonicalOrder threeThreads)
        (fun _ => canonicalOrder threeThreads) canonicalMemoOrder
      = Some (maxC, epoch)
      ∧ (∀ k A, threadsMetadata threeThreads !! k = Some A ->
           Z.of_nat (concurrencyCount (threadsMetadata threeThreads) A) <= maxC)
      ∧ (threadsMetadata threeThreads ≠ ∅ ->
         ∃ k A, threadsMetadata threeThreads !! k = Some A
                ∧ maxC = Z.of_nat (concurrencyCount (threadsMetadata threeThreads) A)
                ∧ epoch = logsStartTimestamp A).
Proof.
  destruct (GetMaxConcurrencyAndEpoch_counts threeThreads (canonicalOrder threeThreads)
              (fun _ => canonicalOrder threeThreads) canonicalMemoOrder)
    as (Hmemo & Hmax & _).
  - apply validOrders_canonical.
  - vm_compute. reflexivity.
  - split; [exact Hmemo|exact Hmax].
Defined.

(** The three threads are what the tracker holds after their markers. *)
Lemma threeThreads_tracked :
  threadsMetadata (fst (WriteAll threeThreadsLog (NewLogWriter, sampleWorld)))
  = threadsMetadata threeThreads.
Proof. vm_compute. reflexivity. Qed.

Lemma threeThreads_lookup k A :
  threadsMetadata threeThreads !! k = Some A ->
  (k = "t1" ∧ A = closedSegment "t1" 0 10)
  ∨ (k = "t2" ∧ A = closedSegment "t2" 2 8)
  ∨ (k = "t3" ∧ A = closedSegment "t3" 9 15).
Proof.
  unfold threeThreads. cbn [threadsMetadata].
  rewrite !lookup_insert_Some, lookup_empty.
  intros [[<- <-]|[_ [[<- <-]|[_ [[<- <-]|[_ Hnone]]]]]]; auto; discriminate.
Qed.

Lemma threeThreads_counts :
  concurrencyCount (threadsMetadata threeThreads) (closedSegment "t1" 0 10) = 3%nat
  ∧ concurrencyCount (threadsMetadata threeThreads) (closedSegment "t2" 2 8) = 1%nat
  ∧ concurrencyCount (threadsMetadata threeThreads) (closedSegment "t3" 9 15) = 1%nat.
Proof. vm_compute. auto. Qed.

(** At no instant are more than two of the three threads alive, and
    two are alive at second 2 and at second 9. *)
Lemma three_threads_at_most_two_alive :
  (∀ t, (concurrencyAt (threadsMetadata threeThreads) t <= 2)%nat)
  ∧ concurrencyAt (threadsMetadata threeThreads) (atSecond 2) = 2%nat
  ∧ concurrencyAt (threadsMetadata threeThreads) (atSecond 9) = 2%nat.
Proof.
  split; [|split; vm_compute; reflexivity].
  intros t. unfold concurrencyAt.
  assert (map_to_list (threadsMetadata threeThreads)
          = [("t3", closedSegment "t3" 9 15); ("t1", closedSegment "t1" 0 10);
             ("t2", closedSegment "t2" 2 8)]) as -> by (vm_compute; reflexivity).
  rewrite !filter_cons, filter_nil. cbn [snd].
  destruct (decide (aliveAt t (closedSegment "t3" 9 15))) as [H3|H3];
    destruct (decide (aliveAt t (closedSegment "t1" 0 10))) as [H1|H1];
    destruct (decide (aliveAt t (closedSegment "t2" 2 8))) as [H2|H2];
    cbn [length]; try lia.
  exfalso. unfold aliveAt, closedSegment, atSecond in H2, H3. simpl in H2, H3. lia.
Qed.

(** C1. At no instant are more than two of the three threads alive, but
    the call reports three, at second 0, whatever orders its loops
    take: the threads that start at seconds 2 and 9 both start within
    the lifetime of the first one and are counted with it. *)
Theorem GetMaxConcurrencyAndEpoch_three_threads
    (order : list (string * threadFileMetadata))
    (innerOrder : string -> list (string * threadFileMetadata))
    (memoOrder : gmap string Z -> list (string * Z)) :
  validOrders threeThreads order innerOrder memoOrder ->
  GetMaxConcurrencyAndEpoch threeThreads order innerOrder memoOrder
  = Some (3, atSecond 0).
Proof.
  intros Hvalid.
  destruct (maxConcurrency_spec threeThreads order innerOrder memoOrder Hvalid)
    as (maxC & epoch & Hret & Hub & _ & Hwho); [vm_compute; reflexivity|].
  destruct threeThreads_counts as (Hc1 & Hc2 & Hc3).
  assert (3 <= maxC) as Hge.
  { rewrite <- (Hub "t1" (closedSegment "t1" 0 10)) by reflexivity. rewrite Hc1. lia. }
  destruct Hwho as (k & A & HA & Hmax & Hep).
  { intros Hempty. pose proof (f_equal (fun m => m !! "t1") Hempty) as Hl.
    vm_compute in Hl. discriminate. }
  apply threeThreads_lookup in HA as [[-> ->]|[[-> ->]|[-> ->]]].
  - rewrite Hret, Hmax, Hep, Hc1. reflexivity.
  - rewrite Hc2 in Hmax. lia.
  - rewrite Hc3 in Hmax. lia.
Qed.

Lemma GetMaxConcurrencyAndEpoch_three_threads_witness :
  GetMaxConcurrencyAndEpoch threeThreads (canonicalOrder threeThreads)
    (fun _ => canonicalOrder threeThreads) canonicalMemoOrder
  = Some (3, atSecond 0).
Proof.
  apply (GetMaxConcurrencyAndEpoch_three_threads (canonicalOrder threeThreads)
           (fun _ => canonicalOrder threeThreads) canonicalMemoOrder).
  apply validOrders_canonical.
Defined.

(** ** Query C: the statistics of the runtimes *)


Lemma wrap64_idemp z : wrap64 (wrap64 z) = wrap64 z.
Proof.
  unfold wrap64.
  replace ((z + 2 ^ 63) mod 2 ^ 64 - 2 ^ 63 + 2 ^ 63) with ((z + 2 ^ 63) mod 2 ^ 64) by lia.
  by rewrite Zmod_mod.
Qed.

Lemma aggRuntime_foldl order : ∀ acc,
  foldl (fun aggRuntime '(_, thMetadata) => int_add aggRuntime (runtimeMs thMetadata))
        (wrap64 acc) order
  = wrap64 (acc + sumZ (runtimesAlong order)).
Proof.
  induction order as [|[k A] order IH]; intros acc; cbn [foldl].
  { simpl. by rewrite Z.add_0_r. }
  unfold int_add at 2. rewrite wrap64_add_l, IH. f_equal.
  unfold runtimesAlong, sumZ. simpl. lia.
Qed.

Lemma aggRuntimeOf_sum order : aggRuntimeOf order = wrap64 (sumZ (runtimesAlong order)).
Proof.
  unfold aggRuntimeOf. pose proof (aggRuntime_foldl order 0) as Hfold.
  rewrite Z.add_0_l in Hfold. rewrite <- Hfold. reflexivity.
Qed.

Lemma sumZ_perm l1 l2 : l1 ≡ₚ l2 -> sumZ l1 = sumZ l2.
Proof. induction 1; simpl; lia. Qed.

Lemma runtimesAlong_perm o1 o2 : o1 ≡ₚ o2 -> runtimesAlong o1 ≡ₚ runtimesAlong o2.
Proof. intros Hp. unfold runtimesAlong. by apply Permutation_map. Qed.



Lemma foldl_ext {A B : Type} (f g : A -> B -> A) (l : list B) :
  (∀ a x, f a x = g a x) -> ∀ a, foldl f a l = foldl g a l.
Proof.
  intros Hfg. induction l as [|x l IH]; intros a; simpl; [done|]. by rewrite Hfg, IH.
Qed.



(** On binary64 the result depends on the second order through the
    sequence of runtimes only. *)
Lemma binary64_stats slw order1 order2 :
  GetAvgStdThreadRuntime slw order1 order2
  = let n := float64_of_int64 (Z.of_nat (size (threadsMetadata slw))) in
    let avgRuntime := PrimFloat.div (float64_of_int64 (aggRuntimeOf order1)) n in
    (avgRuntime,
     PrimFloat.sqrt (PrimFloat.div (stdSumAlong avgRuntime (runtimesAlong order2)) n)).
Proof.
  unfold GetAvgStdThreadRuntime, GetAvgStdThreadRuntime_on, stdSumAlong, runtimesAlong.
  cbn [f_of_int64 f_div f_sqrt f_add f_sub f_square f_zero binary64].
  cbv zeta. f_equal. f_equal. f_equal.
  rewrite foldl_fmap. apply foldl_ext. by intros s [k A].
Qed.






(** ** A segment whose end marker never arrives *)

(** [Write] changes the table at the key of its record only. *)
Lemma Write_other_keys ll st k :
  ThreadId ll ≠ k ->
  threadsMetadata (fst (fst (Write ll st))) !! k = threadsMetadata (fst st) !! k.
Proof.
  intros Hk. destruct st as [slw w]. unfold Write. cbn [fst].
  assert (∀ thState st', threadsMetadata (fst (fst (writeLogLine ll thState st'))) !! k
                         = threadsMetadata (fst st') !! k) as Hwrite.
  { intros thState [slw' w']. unfold writeLogLine.
    destruct (File_Write _ _ _) as [w'' [err|]]; [done|].
    destruct (string_eqb _ _); [|done]. cbn [fst threadsMetadata].
    by rewrite lookup_insert_ne. }
  destruct (threadsMetadata slw !! ThreadId ll) as [thState|]; [apply Hwrite|].
  unfold initialize. destruct (negb _); [done|].
  destruct (os_OpenFile _ _) as [w' [file|err]]; [|done].
  rewrite Hwrite. cbn [fst threadsMetadata]. by rewrite lookup_insert_ne.
Qed.



Lemma GetActiveThreadCountBetweenInterval_overlap_witness :
  {| ti_ProcessID := "p1"; ti_ThreadId := "t1"; ti_ThreadFileName := "mergedlogs/p1-t1.log" |}
  ∈ GetActiveThreadCountBetweenInterval (canonicalOrder touchingTracker)
      (time.Date 2020 8 9 10 0 5 0) (time.Date 2020 8 9 10 0 10 0).
Proof.
  destruct (GetActiveThreadCountBetweenInterval_overlap touchingTracker
              (canonicalOrder touchingTracker)
              (time.Date 2020 8 9 10 0 5 0) (time.Date 2020 8 9 10 0 10 0) "t1"
              {| processId := "p1";
                 logsStartTimestamp := time.Date 2020 8 9 10 0 0 0;
                 logsEndTimestamp := time.Date 2020 8 9 10 0 5 0;
                 logFd := None;
                 logFilepath := "mergedlogs/p1-t1.log" |})
    as (_ & _ & Htouch).
  - unfold ranges, canonicalOrder. reflexivity.
  - reflexivity.
  - apply Htouch; [reflexivity| |]; apply Z.leb_le; vm_compute; reflexivity.
Defined.


Lemma unendedTracker_segment : threadsMetadata unendedTracker !! "t1" = Some unendedSegment.
Proof. vm_compute. reflexivity. Qed.



(** ** Rendering *)

(** A call of [Write] that succeeds appends the rendered record and a
    newline to one file, and changes no other file. *)
Lemma writeLogLine_appends ll thState st st' :
  writeLogLine ll thState st = (st', None) ->
  ∃ path, logFd thState = Some path
          ∧ files st'.2 = <[path := default "" (files st.2 !! path) +:+ lineOf ll]> (files st.2).
Proof.
  destruct st as [slw w]. unfold writeLogLine, File_Write.
  destruct (logFd thState) as [path|]; [|done].
  destruct (decide (path ∈ write_denied w)); [done|].
  intros Hw. exists path. split; [done|].
  destruct (string_eqb (Message ll) threadLogsEndMarker); by simplify_eq/=.
Qed.

Lemma Write_appends_line ll st st' :
  Write ll st = (st', None) ->
  ∃ path, files st'.2 = <[path := default "" (files st.2 !! path) +:+ lineOf ll]> (files st.2).
Proof.
  destruct st as [slw w]. unfold Write. cbn [fst].
  destruct (threadsMetadata slw !! ThreadId ll) as [thState|].
  { intros Hw. apply writeLogLine_appends in Hw as (path & _ & Hfiles). eauto. }
  unfold initialize. destruct (negb _); [done|].
  unfold os_OpenFile. destruct (decide (threadLogFilePath ll ∈ open_denied w)); [done|].
  destruct (files w !! threadLogFilePath ll) as [old|] eqn:Hold.
  - intros Hw. apply writeLogLine_appends in Hw as (path & _ & Hfiles). eauto.
  - intros Hw. apply writeLogLine_appends in Hw as (path & Hfd & Hfiles).
    cbn [logFd] in Hfd. injection Hfd as <-. exists (threadLogFilePath ll).
    rewrite Hfiles. cbn [snd files with_files].
    by rewrite lookup_insert_eq, insert_insert_eq, Hold.
Qed.

(** C3. The record of a line stamped [2020-08-09 18:59:25,200] is
    written to the file of its thread with the stamp
    [2020-08-09 18:59:25.2 +0000 UTC]: the line, newline-terminated, is
    in the format of the input but for the timestamp, which is in the
    default format of [time.Time]. *)
Theorem Write_renders_timestamp_in_default_format :
  ParseLogline sampleLine = Ok sampleRecord
  ∧ snd (Write sampleRecord (NewLogWriter, sampleWorld)) = None
  ∧ files (snd (fst (Write sampleRecord (NewLogWriter, sampleWorld))))
      !! "mergedlogs/p1-t1.log"
    = Some ("p1:t1::worker 2020-08-09 18:59:25.2 +0000 UTC - **START**" +:+ newline)
  ∧ ¬ (files (snd (fst (Write sampleRecord (NewLogWriter, sampleWorld))))
         !! "mergedlogs/p1-t1.log"
       = Some ("p1:t1::worker 2020-08-09 18:59:25,200 - **START**" +:+ newline)).
Proof.
  split; [vm_compute; reflexivity|]. split; [vm_compute; reflexivity|].
  split; [vm_compute; reflexivity|]. vm_compute. discriminate.
Qed.

(** C9. A well-formed line is parsed; the text its record is rendered
    to is rejected by the parser, which cannot read the timestamp. *)
Theorem ParseLogline_rejects_rendered_text :
  ParseLogline sampleLine = Ok sampleRecord
  ∧ LogLine_String sampleRecord
    = "p1:t1::worker 2020-08-09 18:59:25.2 +0000 UTC - **START**"
  ∧ ParseLogline (LogLine_String sampleRecord)
    = Err (errors_WrapText LogLineParseErr
             (time_ParseError "2020-08-09 18:59:25.2 +0000 UTC")).
Proof. repeat split; vm_compute; reflexivity. Qed.

(** The same for a timestamp on a full second and for one with three
    digits of milliseconds: what [Time_String] prints after the seconds
    is never what the layout of the parser asks for. *)
Lemma rendered_timestamps_are_rejected :
  (time.Parse "2020-08-09 18:59:25,000" = Some 63732596365000000000
   ∧ time.Time_String 63732596365000000000 = "2020-08-09 18:59:25 +0000 UTC"
   ∧ time.Parse (time.Time_String 63732596365000000000) = None)
  ∧ (time.Parse "2020-08-09 18:59:25,123" = Some 63732596365123000000
     ∧ time.Time_String 63732596365123000000 = "2020-08-09 18:59:25.123 +0000 UTC"
     ∧ time.Parse (time.Time_String 63732596365123000000) = None).
Proof. repeat split; vm_compute; reflexivity. Qed.

(** ** Reading the raw files *)

(** Once the directory is listed, [ProcessRawLogFiles] returns no
    error, whatever happens in the files. *)
Lemma ProcessRawLogFiles_returns_nil st entries :
  input_dir (snd st) = Ok entries -> snd (ProcessRawLogFiles st) = None.
Proof. intros Hdir. unfold ProcessRawLogFiles. by rewrite Hdir. Qed.

(** The loop over the lines of a file goes on after the lines that
    succeed, and the first error ends it. *)
Lemma convertLines_app lines1 lines2 st :
  convertLines (lines1 ++ lines2) st
  = match convertLines lines1 st with
    | (st1, None) => convertLines lines2 st1
    | (st1, Some err) => (st1, Some err)
    end.
Proof.
  revert st. induction lines1 as [|l lines1 IH]; intros st; cbn [app convertLines].
  { done. }
  destruct (ParseLogline l) as [ll|err]; [|done].
  destruct (Write ll st) as [st' [err|]]; [done|]. apply IH.
Qed.

(** A line that cannot be parsed ends the processing of its file: the
    error is returned, and the lines after it are not read. *)
Lemma convertLines_parse_failure lines1 lineText lines2 st st1 err :
  convertLines lines1 st = (st1, None) ->
  ParseLogline lineText = Err err ->
  convertLines (lines1 ++ lineText :: lines2) st = (st1, Some err).
Proof.
  intros Hbefore Hbad. rewrite convertLines_app, Hbefore. cbn [convertLines].
  by rewrite Hbad.
Qed.

(** So does a record that [Write] refuses. *)
Lemma convertLines_write_failure lines1 lineText lines2 st st1 st2 ll err :
  convertLines lines1 st = (st1, None) ->
  ParseLogline lineText = Ok ll ->
  Write ll st1 = (st2, Some err) ->
  convertLines (lines1 ++ lineText :: lines2) st = (st2, Some err).
Proof.
  intros Hbefore Hll Hw. rewrite convertLines_app, Hbefore. cbn [convertLines].
  by rewrite Hll, Hw.
Qed.

(** C2. A directory with one file whose only line cannot be parsed:
    [convertProcessLogFile] stops at the line and returns the parse
    error, and [ProcessRawLogFiles], which does not look at what it
    returns, gives its own caller no error. *)
Theorem ProcessRawLogFiles_drops_the_error :
  convertProcessLogFile (filepath_Join InputLogsDirPath "app.log")
    (NewLogWriter, badInputWorld)
  = ((NewLogWriter, badInputWorld), Some LogLineParseErr)
  ∧ ProcessRawLogFiles (NewLogWriter, badInputWorld)
    = ((NewLogWriter, badInputWorld), None).
Proof. split; vm_compute; reflexivity. Qed.

(** ** Demultiplexing *)

Lemma append_assoc (a b c : string) : (a +:+ b) +:+ c = a +:+ (b +:+ c).
Proof.
  induction a as [|x a IH]; [reflexivity|].
  change (String x ((a +:+ b) +:+ c) = String x (a +:+ (b +:+ c))). by rewrite IH.
Qed.

(** A record of a thread whose segment is open. *)
Lemma Write_existing ll slw w md :
  threadsMetadata slw !! ThreadId ll = Some md ->
  logFd md = Some (logFilepath md) ->
  write_denied w = ∅ ->
  Write ll (slw, w)
  = ((if string_eqb (Message ll) threadLogsEndMarker
      then {| threadsMetadata := <[ThreadId ll := endedSegment md ll]> (threadsMetadata slw) |}
      else slw,
      with_files w (<[logFilepath md := default "" (files w !! logFilepath md) +:+ lineOf ll]>
                      (files w))),
     None).
Proof.
  intros Hmd Hfd Hwd. unfold Write. cbn [fst]. rewrite Hmd.
  unfold writeLogLine, File_Write. rewrite Hfd.
  rewrite decide_False by (rewrite Hwd; apply not_elem_of_empty).
  by destruct (string_eqb (Message ll) threadLogsEndMarker).
Qed.

(** The start marker of a thread that has no segment yet. *)
Lemma Write_new ll slw w :
  threadsMetadata slw !! ThreadId ll = None ->
  Message ll = threadLogsStartMarker ->
  open_denied w = ∅ -> write_denied w = ∅ ->
  files w !! threadLogFilePath ll = None ->
  Write ll (slw, w)
  = (({| threadsMetadata := <[ThreadId ll := newSegment ll]> (threadsMetadata slw) |},
      with_files w (<[threadLogFilePath ll := "" +:+ lineOf ll]> (files w))),
     None).
Proof.
  intros Hmd Hmsg Hod Hwd Hfresh. unfold Write. cbn [fst]. rewrite Hmd.
  unfold initialize. rewrite Hmsg.
  replace (string_eqb threadLogsStartMarker threadLogsStartMarker) with true
    by (symmetry; by apply string_eqb_true).
  cbn [negb]. unfold os_OpenFile.
  rewrite decide_False by (rewrite Hod; apply not_elem_of_empty).
  rewrite Hfresh. unfold writeLogLine, File_Write. cbn [logFd logFilepath].
  rewrite decide_False by (cbn [write_denied with_files]; rewrite Hwd; apply not_elem_of_empty).
  cbn [files with_files]. rewrite lookup_insert_eq. cbn [default].
  rewrite Hmsg.
  replace (string_eqb threadLogsStartMarker threadLogsEndMarker) with false
    by (symmetry; by apply string_eqb_false).
  unfold with_files. cbn. rewrite insert_insert_eq. reflexivity.
Qed.

Lemma stores_exist_after (m m' : gmap string threadFileMetadata)
    (fs : gmap string string) (p v : string) :
  (∀ k md, m' !! k = Some md -> logFilepath md = p ∨ m !! k = Some md) ->
  (∀ k md, m !! k = Some md -> is_Some (fs !! logFilepath md)) ->
  ∀ k md, m' !! k = Some md -> is_Some (<[p := v]> fs !! logFilepath md).
Proof.
  intros Hm' Hm k md Hk. destruct (decide (logFilepath md = p)) as [->|Hne].
  - rewrite lookup_insert_eq. eauto.
  - rewrite lookup_insert_ne by done. destruct (Hm' k md Hk) as [Hp|Hold]; [done|].
    by eapply Hm.
Qed.

(** One record of a stream that follows the protocol: the call
    succeeds, the line goes to the file of the thread, and the tracker
    agrees with the threads seen so far. *)
Lemma Write_step ll st opened closed recs' :
  tracks st opened closed ->
  followsProtocol opened closed (ll :: recs') = true ->
  (∀ k md, threadsMetadata st.1 !! k = Some md ->
     threadLogFilePath ll = logFilepath md -> ThreadId ll = k) ->
  (ThreadId ll ∉ opened -> files st.2 !! threadLogFilePath ll = None) ->
  snd (Write ll st) = None
  ∧ tracks (fst (Write ll st)) (nextOpened opened ll) (nextClosed closed ll)
  ∧ followsProtocol (nextOpened opened ll) (nextClosed closed ll) recs' = true
  ∧ (∃ md', threadsMetadata (fst (Write ll st)).1 !! ThreadId ll = Some md'
            ∧ logFilepath md' = storePath st ll)
  ∧ files (fst (Write ll st)).2
    = <[storePath st ll := storeBefore st (ThreadId ll) +:+ lineOf ll]> (files st.2).
Proof.
  intros (Hdom & Hfd & Hinj & Hex & Hod & Hwd) Hproto HP1 HP3.
  destruct st as [slw w]. cbn [fst snd] in *.
  cbn [followsProtocol] in Hproto.
  destruct (decide (ThreadId ll ∈ closed)) as [Hc|Hnc]; [discriminate|].
  destruct (decide (ThreadId ll ∈ opened)) as [Ho|Hno].
  - (* the thread has a segment, which is open *)
    pose proof Ho as Hin. apply Hdom in Hin as [md Hmd].
    pose proof (Hfd _ _ Hmd) as Hopen. rewrite decide_False in Hopen by done.
    rewrite (Write_existing ll slw w md Hmd Hopen Hwd). cbn [fst snd].
    unfold storePath, storeBefore. cbn [fst snd]. rewrite Hmd.
    assert (nextOpened opened ll = opened) as ->.
    { unfold nextOpened. apply subseteq_union_1_L. by apply singleton_subseteq_l. }
    split; [done|]. split; [|split; [done|split]].
    + unfold tracks, nextClosed. cbn [fst snd with_files open_denied write_denied files].
      destruct (string_eqb (Message ll) threadLogsEndMarker) eqn:Hend;
        cbn [threadsMetadata].
      * split; [|split; [|split; [|split; [|done]]]].
        -- intros k. rewrite Hdom. destruct (decide (k = ThreadId ll)) as [->|Hne].
           ++ rewrite lookup_insert_eq, Hmd. split; eauto.
           ++ by rewrite lookup_insert_ne.
        -- intros k md0. destruct (decide (k = ThreadId ll)) as [->|Hne].
           ++ rewrite lookup_insert_eq. intros [= <-]. cbn [logFd endedSegment].
              rewrite decide_True; [done|]. apply elem_of_union_l. by apply elem_of_singleton.
           ++ rewrite lookup_insert_ne by done. intros Hk. rewrite (Hfd _ _ Hk).
              destruct (decide (k ∈ closed)) as [Hkc|Hkc].
              ** rewrite decide_True; [done|]. by apply elem_of_union_r.
              ** rewrite decide_False; [done|]. intros Hu.
                 apply elem_of_union in Hu as [Hu|Hu]; [|done].
                 apply elem_of_singleton in Hu. done.
        -- intros k1 k2 md1 md2.
           destruct (decide (k1 = ThreadId ll)) as [->|Hne1];
             destruct (decide (k2 = ThreadId ll)) as [->|Hne2]; [done| | |].
           ++ rewrite lookup_insert_eq, lookup_insert_ne by done.
              intros [= <-] Hk2 Hp. cbn [logFilepath endedSegment] in Hp. by eapply Hinj.
           ++ rewrite lookup_insert_eq, lookup_insert_ne by done.
              intros Hk1 [= <-] Hp. cbn [logFilepath endedSegment] in Hp. by eapply Hinj.
           ++ rewrite !lookup_insert_ne by done. apply Hinj.
        -- apply (stores_exist_after (threadsMetadata slw)); [|done].
           intros k md0. destruct (decide (k = ThreadId ll)) as [->|Hne].
           ++ rewrite lookup_insert_eq. intros [= <-]. by left.
           ++ rewrite lookup_insert_ne by done. by right.
      * split; [done|]. split; [done|]. split; [done|]. split; [|done].
        apply (stores_exist_after (threadsMetadata slw)); [|done]. by right.
    + destruct (string_eqb (Message ll) threadLogsEndMarker); cbn [threadsMetadata].
      * rewrite lookup_insert_eq. eauto.
      * eauto.
    + destruct (string_eqb (Message ll) threadLogsEndMarker); done.
  - (* the first record of the thread *)
    apply andb_true_iff in Hproto as [Hstart Hproto].
    apply string_eqb_true in Hstart.
    assert (threadsMetadata slw !! ThreadId ll = None) as Hnone.
    { apply eq_None_not_Some. intros Hsome. by apply Hdom in Hsome. }
    rewrite (Write_new ll slw w Hnone Hstart Hod Hwd (HP3 Hno)). cbn [fst snd].
    unfold storePath, storeBefore. cbn [fst snd]. rewrite Hnone.
    assert (nextClosed closed ll = closed) as ->.
    { unfold nextClosed. rewrite Hstart.
      replace (string_eqb threadLogsStartMarker threadLogsEndMarker) with false
        by (symmetry; by apply string_eqb_false). done. }
    split; [done|]. split; [|split; [done|split]].
    + unfold tracks, nextOpened.
      cbn [fst snd with_files open_denied write_denied threadsMetadata files].
      split; [|split; [|split; [|split; [|done]]]].
      * intros k. rewrite elem_of_union, elem_of_singleton, Hdom.
        destruct (decide (k = ThreadId ll)) as [->|Hne].
        -- rewrite lookup_insert_eq. split; eauto.
        -- rewrite lookup_insert_ne by done. split; [intros [?|?]; done|auto].
      * intros k md0. destruct (decide (k = ThreadId ll)) as [->|Hne].
        -- rewrite lookup_insert_eq. intros [= <-]. by rewrite decide_False.
        -- rewrite lookup_insert_ne by done. apply Hfd.
      * intros k1 k2 md1 md2.
        destruct (decide (k1 = ThreadId ll)) as [->|Hne1];
          destruct (decide (k2 = ThreadId ll)) as [->|Hne2]; [done| | |].
        -- rewrite lookup_insert_eq, lookup_insert_ne by done.
           intros [= <-] Hk2 Hp. by apply (HP1 k2 md2).
        -- rewrite lookup_insert_eq, lookup_insert_ne by done.
           intros Hk1 [= <-] Hp. symmetry. by apply (HP1 k1 md1).
        -- rewrite !lookup_insert_ne by done. apply Hinj.
      * apply (stores_exist_after (threadsMetadata slw)); [|done].
        intros k md0. destruct (decide (k = ThreadId ll)) as [->|Hne].
        -- rewrite lookup_insert_eq. intros [= <-]. by left.
        -- rewrite lookup_insert_ne by done. by right.
    + cbn [threadsMetadata]. rewrite lookup_insert_eq. eauto.
    + done.
Qed.

Lemma append_nil_r (a : string) : a +:+ "" = a.
Proof.
  induction a as [|x a IH]; [reflexivity|].
  change (String x (a +:+ "") = String x a). by rewrite IH.
Qed.

Lemma WriteAll_cons ll recs st : WriteAll (ll :: recs) st = WriteAll recs (fst (Write ll st)).
Proof. reflexivity. Qed.

(** Only a record of the same thread is given the file that the
    record [ll] is written to. *)
Lemma storePath_owner st opened closed ll ll' :
  tracks st opened closed ->
  (∀ k md, threadsMetadata st.1 !! k = Some md ->
     threadLogFilePath ll' = logFilepath md -> ThreadId ll' = k) ->
  (threadLogFilePath ll' = threadLogFilePath ll -> ThreadId ll' = ThreadId ll) ->
  threadLogFilePath ll' = storePath st ll -> ThreadId ll' = ThreadId ll.
Proof.
  intros Htr HP1 Hdist. unfold storePath.
  destruct (threadsMetadata st.1 !! ThreadId ll) as [md|] eqn:Hmd; [|done].
  intros Hp. by apply (HP1 _ md).
Qed.

(** The file another thread's record is written to is not the file of
    the segment [md] of thread [k]. *)
Lemma storePath_other st opened closed ll k md :
  tracks st opened closed ->
  (∀ k' md', threadsMetadata st.1 !! k' = Some md' ->
     threadLogFilePath ll = logFilepath md' -> ThreadId ll = k') ->
  threadsMetadata st.1 !! k = Some md ->
  k ≠ ThreadId ll ->
  storePath st ll ≠ logFilepath md.
Proof.
  intros (_ & _ & Hinj & _) HP1 Hk Hne. unfold storePath.
  destruct (threadsMetadata st.1 !! ThreadId ll) as [md0|] eqn:Hmd.
  - intros Hp. apply Hne. symmetry. by apply (Hinj _ _ _ _ Hmd Hk).
  - intros Hp. apply Hne. symmetry. by apply (HP1 k md).
Qed.

(** From a tracker that agrees with the threads seen so far, a stream
    that follows the protocol is written without an error, every
    thread of the stream gets a segment, and the file of each segment
    receives the lines of the records of its thread, in their order. *)
Lemma WriteAll_demux recs : ∀ st opened closed,
  tracks st opened closed ->
  followsProtocol opened closed recs = true ->
  distinctFiles recs ->
  (∀ ll k md, ll ∈ recs -> threadsMetadata st.1 !! k = Some md ->
     threadLogFilePath ll = logFilepath md -> ThreadId ll = k) ->
  (∀ ll, ll ∈ recs -> ThreadId ll ∉ opened -> files st.2 !! threadLogFilePath ll = None) ->
  Forall (fun e => e = None) (WriteAll_errors recs st)
  ∧ (∀ k, is_Some (threadsMetadata (WriteAll recs st).1 !! k)
          ↔ k ∈ opened ∨ ∃ ll, ll ∈ recs ∧ ThreadId ll = k)
  ∧ (∀ k md', threadsMetadata (WriteAll recs st).1 !! k = Some md' ->
       files (WriteAll recs st).2 !! logFilepath md'
       = Some (storeBefore st k +:+ rendered (recordsOf k recs))).
Proof.
  induction recs as [|ll rest IH]; intros st opened closed Htr Hproto Hdist HP1 HP3.
  { cbn [WriteAll_errors]. unfold WriteAll. cbn [foldl].
    destruct Htr as (Hdom & _ & _ & Hex & _).
    split; [constructor|]. split.
    - intros k. rewrite <- Hdom. split; [auto|].
      intros [Hk|(ll & Hin & _)]; [done|]. by apply elem_of_nil in Hin.
    - intros k md' Hk. unfold storeBefore. rewrite Hk.
      destruct (Hex k md' Hk) as [v Hv]. rewrite Hv. cbn [default rendered recordsOf filter].
      unfold recordsOf. rewrite filter_nil. cbn [rendered]. by rewrite append_nil_r. }
  assert (ll ∈ ll :: rest) as Hhead by (apply elem_of_cons; by left).
  assert (∀ ll', ll' ∈ rest -> ll' ∈ ll :: rest) as Htail
      by (intros ll' Hin; apply elem_of_cons; by right).
  destruct (Write_step ll st opened closed rest Htr Hproto) as
    (Herr & Htr1 & Hproto1 & (md1 & Hmd1 & Hpath1) & Hfiles1).
  { intros k md. by apply HP1. }
  { by apply HP3. }
  assert (∀ k, k ≠ ThreadId ll ->
               threadsMetadata (fst (Write ll st)).1 !! k = threadsMetadata st.1 !! k) as Hother.
  { intros k Hne. apply Write_other_keys. congruence. }
  assert (∀ ll', ll' ∈ ll :: rest ->
                 threadLogFilePath ll' = storePath st ll -> ThreadId ll' = ThreadId ll) as Howner.
  { intros ll' Hin. apply (storePath_owner st opened closed ll ll' Htr).
    - intros k md. by apply HP1.
    - by apply Hdist. }
  destruct (IH (fst (Write ll st)) (nextOpened opened ll) (nextClosed closed ll) Htr1 Hproto1)
    as (Herrs & Hdom' & Hstore').
  { intros l1 l2 Hl1 Hl2. apply Hdist; auto. }
  { intros ll' k md Hin Hk Hp. destruct (decide (k = ThreadId ll)) as [->|Hne].
    - rewrite Hmd1 in Hk. injection Hk as <-. apply Howner; [auto|]. by rewrite Hp.
    - rewrite Hother in Hk by done. by apply (HP1 ll' k md); auto. }
  { intros ll' Hin Hnew. unfold nextOpened in Hnew.
    rewrite Hfiles1. rewrite lookup_insert_ne.
    - apply HP3; [auto|]. intros Ho. apply Hnew. by apply elem_of_union_r.
    - intros Hp. apply Hnew. apply elem_of_union_l, elem_of_singleton.
      apply Howner; [auto|done]. }
  rewrite WriteAll_cons. cbn [WriteAll_errors].
  split; [constructor; done|]. split.
  - intros k. rewrite Hdom'. unfold nextOpened.
    rewrite elem_of_union, elem_of_singleton. split.
    + intros [[->|Ho]|(ll' & Hin & Hk)]; [right; eauto|by left|right; eauto].
    + intros [Ho|(ll' & Hin & Hk)]; [left; by right|].
      apply elem_of_cons in Hin as [->|Hin]; [left; left; done|right; eauto].
  - intros k md' Hk. rewrite (Hstore' k md' Hk). f_equal.
    unfold recordsOf. destruct (decide (k = ThreadId ll)) as [->|Hne].
    + rewrite filter_cons_True by done. cbn [rendered].
      unfold storeBefore at 1. rewrite Hmd1, Hfiles1, Hpath1, lookup_insert_eq.
      cbn [default]. apply append_assoc.
    + rewrite filter_cons_False by congruence. f_equal.
      unfold storeBefore. rewrite Hother by done.
      destruct (threadsMetadata st.1 !! k) as [md|] eqn:Hmd; [|done].
      rewrite Hfiles1, lookup_insert_ne; [done|].
      apply (storePath_other st opened closed ll k md Htr); [|done|done].
      intros k' md'0. by apply HP1.
Qed.

Lemma markers_differ : threadLogsStartMarker ≠ threadLogsEndMarker.
Proof. discriminate. Qed.

(** [followsProtocol] decides the two conditions. *)
Lemma followsProtocol_spec recs : ∀ opened closed,
  followsProtocol opened closed recs = true ↔ protocolFrom opened closed recs.
Proof.
  induction recs as [|ll rest IH]; intros opened closed.
  { cbn [followsProtocol]. split; [|done]. intros _. split; [|split].
    - intros [|? ?] ? ? Heq; discriminate.
    - intros [|? ?] ? ? Heq; discriminate.
    - intros ll Hin. by apply elem_of_nil in Hin. }
  cbn [followsProtocol]. split.
  - destruct (decide (ThreadId ll ∈ closed)) as [Hc|Hnc]; [discriminate|].
    destruct (decide (ThreadId ll ∈ opened)) as [Ho|Hno].
    + intros Hrest. apply IH in Hrest as (HA & HB & HC). split; [|split].
      * intros [|l0 pre] l suf Heq Hnew Hprev; simplify_eq/=; [done|].
        apply (HA pre l suf); [done|done|].
        intros ll' Hin. apply Hprev. apply elem_of_cons. by right.
      * intros [|l0 pre] l suf Heq Hend ll' Hin; simplify_eq/=.
        -- apply string_eqb_true in Hend. rewrite Hend in HC.
           intros Heq. apply (HC ll' Hin). rewrite Heq.
           apply elem_of_union_l. by apply elem_of_singleton.
        -- by apply (HB pre l suf).
      * intros l Hin. apply elem_of_cons in Hin as [->|Hin]; [done|].
        intros Hcl. apply (HC l Hin).
        destruct (string_eqb (Message ll) threadLogsEndMarker); [|done].
        by apply elem_of_union_r.
    + intros Hrest. apply andb_true_iff in Hrest as [Hstart Hrest].
      apply string_eqb_true in Hstart.
      apply IH in Hrest as (HA & HB & HC). split; [|split].
      * intros [|l0 pre] l suf Heq Hnew Hprev; simplify_eq/=; [done|].
        apply (HA pre l suf); [done| |].
        -- intros Hu. apply elem_of_union in Hu as [Hu|Hu]; [|done].
           apply elem_of_singleton in Hu.
           apply (Hprev l0); [apply elem_of_cons; by left|done].
        -- intros ll' Hin. apply Hprev. apply elem_of_cons. by right.
      * intros [|l0 pre] l suf Heq Hend ll' Hin; simplify_eq/=.
        -- exfalso. apply markers_differ. by rewrite <- Hstart, <- Hend.
        -- by apply (HB pre l suf).
      * intros l Hin. apply elem_of_cons in Hin as [->|Hin]; [done|]. by apply HC.
  - intros (HA & HB & HC).
    rewrite decide_False by (apply HC; apply elem_of_cons; by left).
    destruct (decide (ThreadId ll ∈ opened)) as [Ho|Hno].
    + apply IH. split; [|split].
      * intros pre l suf Heq Hnew Hprev. apply (HA (ll :: pre) l suf); [by rewrite Heq|done|].
        intros ll' Hin. apply elem_of_cons in Hin as [->|Hin]; [|by apply Hprev].
        intros Heq'. apply Hnew. by rewrite <- Heq'.
      * intros pre l suf Heq. apply (HB (ll :: pre) l suf). by rewrite Heq.
      * intros l Hin.
        assert (ThreadId l ∉ closed) as Hl by (apply HC; apply elem_of_cons; by right).
        destruct (string_eqb (Message ll) threadLogsEndMarker) eqn:Hend; [|done].
        apply string_eqb_true in Hend.
        intros Hu. apply elem_of_union in Hu as [Hu|Hu]; [|done].
        apply elem_of_singleton in Hu. by apply (HB [] ll rest eq_refl Hend l Hin).
    + apply andb_true_iff. split.
      * apply string_eqb_true. apply (HA [] ll rest); [done|done|].
        intros ll' Hin. by apply elem_of_nil in Hin.
      * apply IH. split; [|split].
        -- intros pre l suf Heq Hnew Hprev.
           apply (HA (ll :: pre) l suf); [by rewrite Heq| |].
           ++ intros Hin. apply Hnew. by apply elem_of_union_r.
           ++ intros ll' Hin. apply elem_of_cons in Hin as [->|Hin]; [|by apply Hprev].
              intros Heq'. apply Hnew. apply elem_of_union_l. by apply elem_of_singleton.
        -- intros pre l suf Heq. apply (HB (ll :: pre) l suf). by rewrite Heq.
        -- intros l Hin. apply HC. apply elem_of_cons. by right.
Qed.

Lemma followsProtocol_iff recs :
  followsProtocol ∅ ∅ recs = true ↔ firstIsStart recs ∧ noneAfterEnd recs.
Proof.
  rewrite followsProtocol_spec. unfold protocolFrom, firstIsStart. split.
  - intros (HA & HB & _). split; [|done].
    intros pre ll suf Heq. apply (HA pre ll suf Heq). apply not_elem_of_empty.
  - intros (HA & HB). split; [|split; [done|]].
    + intros pre ll suf Heq _. by apply (HA pre ll suf).
    + intros ll _. apply not_elem_of_empty.
Qed.

Lemma tracks_empty w :
  open_denied w = ∅ -> write_denied w = ∅ -> tracks (NewLogWriter, w) ∅ ∅.
Proof.
  intros Hod Hwd. unfold tracks. cbn [fst snd NewLogWriter threadsMetadata].
  split; [|split; [|split; [|split; [|done]]]].
  - intros k. rewrite lookup_empty. split; [intros Hin; by apply not_elem_of_empty in Hin|].
    intros [? ?]; discriminate.
  - intros k md. by rewrite lookup_empty.
  - intros k1 k2 md1 md2. by rewrite lookup_empty.
  - intros k md. by rewrite lookup_empty.
Qed.

(** C4. A stream of records in which the first record of each thread
    is a start marker and no record of a thread follows the end marker
    of that thread, whose threads are given different files, none of
    which exists yet, under an operating system that fails no call,
    written to an empty tracker in its order: every call of [Write]
    succeeds, the tracker has a segment for each thread of the stream
    and for no other, and the file of the segment of a thread holds
    the lines of the records of that thread, all of them, in their
    order of arrival, and nothing else. *)
Theorem WriteAll_demultiplexes (recs : list LogLine) (w : World) :
  firstIsStart recs ->
  noneAfterEnd recs ->
  distinctFiles recs ->
  freshWorld w recs ->
  Forall (fun e => e = None) (WriteAll_errors recs (NewLogWriter, w))
  ∧ (∀ k, is_Some (threadsMetadata (WriteAll recs (NewLogWriter, w)).1 !! k)
          ↔ ∃ ll, ll ∈ recs ∧ ThreadId ll = k)
  ∧ (∀ k md, threadsMetadata (WriteAll recs (NewLogWriter, w)).1 !! k = Some md ->
       files (WriteAll recs (NewLogWriter, w)).2 !! logFilepath md
       = Some (rendered (recordsOf k recs))).
Proof.
  intros Hfirst Hlast Hdist (Hod & Hwd & Hfresh).
  destruct (WriteAll_demux recs (NewLogWriter, w) ∅ ∅) as (Herrs & Hdom & Hstore).
  - by apply tracks_empty.
  - apply followsProtocol_iff. by split.
  - exact Hdist.
  - intros ll k md _. cbn [fst NewLogWriter threadsMetadata]. by rewrite lookup_empty.
  - intros ll Hin _. by apply Hfresh.
  - split; [exact Herrs|]. split.
    + intros k. rewrite Hdom. split; [|by right].
      intros [Hin|Hex]; [by apply not_elem_of_empty in Hin|done].
    + intros k md Hk. rewrite (Hstore k md Hk). done.
Qed.

Lemma interleavedLog_distinctFiles : distinctFiles interleavedLog.
Proof.
  intros l1 l2 H1 H2. unfold interleavedLog in H1, H2.
  repeat (apply elem_of_cons in H1 as [->|H1]); [..|by apply elem_of_nil in H1];
    repeat (apply elem_of_cons in H2 as [->|H2]); try (by apply elem_of_nil in H2);
    vm_compute; congruence.
Qed.

Lemma WriteAll_demultiplexes_witness :
  Forall (fun e => e = None) (WriteAll_errors interleavedLog (NewLogWriter, sampleWorld))
  ∧ files (WriteAll interleavedLog (NewLogWriter, sampleWorld)).2 !! "mergedlogs/p1-t2.log"
    = Some (rendered [ markerRecord "t2" 1 threadLogsStartMarker;
                       markerRecord "t2" 3 "two";
                       markerRecord "t2" 5 "three" ]).
Proof.
  destruct (WriteAll_demultiplexes interleavedLog sampleWorld) as (Herrs & _ & Hstore).
  - apply followsProtocol_iff. vm_compute. reflexivity.
  - apply followsProtocol_iff. vm_compute. reflexivity.
  - apply interleavedLog_distinctFiles.
  - split; [reflexivity|]. split; [reflexivity|]. intros ll _. apply lookup_empty.
  - split; [exact Herrs|].
    apply (Hstore "t2" {| processId := "p1"; logsStartTimestamp := atSecond 1;
                          logsEndTimestamp := time.zero;
                          logFd := Some "mergedlogs/p1-t2.log";
                          logFilepath := "mergedlogs/p1-t2.log" |}).
    vm_compute. reflexivity.
Defined.

Lemma lateLog_firstIsStart : firstIsStart lateLog.
Proof.
  intros pre ll suf Heq Hprev. unfold lateLog in Heq.
  destruct pre as [|l0 pre]; [by simplify_eq/=|].
  exfalso. apply (Hprev l0); [apply elem_of_cons; by left|].
  destruct pre as [|l1 [|l2 [|l3 pre]]]; simplify_eq/=; reflexivity.
Qed.

(** A stream whose only thread starts with its start marker, and which
    has a record after the end marker of the thread: the third call of
    [Write] fails on the closed file, and the store of the thread holds
    two of its three records. *)
Lemma late_record_is_not_stored :
  firstIsStart lateLog
  ∧ recordsOf "t1" lateLog = lateLog
  ∧ WriteAll_errors lateLog (NewLogWriter, sampleWorld)
    = [None; None;
       Some (errors_Wrap os_ErrInvalid
               "error occurred while writing to [mergedlogs/p1-t1.log]")]
  ∧ (∃ md, threadsMetadata (WriteAll lateLog (NewLogWriter, sampleWorld)).1 !! "t1" = Some md
           ∧ files (WriteAll lateLog (NewLogWriter, sampleWorld)).2 !! logFilepath md
             = Some (rendered [ markerRecord "t1" 0 threadLogsStartMarker;
                                markerRecord "t1" 1 threadLogsEndMarker ])
           ∧ ¬ (files (WriteAll lateLog (NewLogWriter, sampleWorld)).2 !! logFilepath md
                = Some (rendered (recordsOf "t1" lateLog)))).
Proof.
  split; [apply lateLog_firstIsStart|]. split; [vm_compute; reflexivity|].
  split; [vm_compute; reflexivity|].
  exists (closedSegment "t1" 0 1). split; [vm_compute; reflexivity|].
  split; [vm_compute; reflexivity|]. vm_compute. discriminate.
Qed.

(** Two threads whose files coincide: the process "a-b" with the
    thread "c", and the process "a" with the thread "b-c". *)
Lemma threadLogFilePath_collision :
  threadLogFilePath {| processID := "a-b"; threadID := "c"; threadName := "n";
                       timestamp := atSecond 0; message := threadLogsStartMarker |}
  = threadLogFilePath {| processID := "a"; threadID := "b-c"; threadName := "n";
                         timestamp := atSecond 0; message := threadLogsStartMarker |}.
Proof. vm_compute. reflexivity. Qed.

(** * Further properties of the code *)

(** ** Splitting text *)

Lemma append_cons (c : ascii) (a b : string) : String c a +:+ b = String c (a +:+ b).
Proof. reflexivity. Qed.

Lemma append_nil_l (b : string) : "" +:+ b = b.
Proof. reflexivity. Qed.

Lemma prefix_split sep : ∀ s,
  String.prefix sep s = true -> s = sep +:+ string_drop (String.length sep) s.
Proof.
  induction sep as [|c sep IH]; intros s Hp; [reflexivity|].
  destruct s as [|a s]; [discriminate|].
  cbn [String.prefix] in Hp. destruct (ascii_dec c a) as [->|Hne]; [|discriminate].
  cbn [String.length string_drop]. rewrite append_cons. f_equal. by apply IH.
Qed.

Lemma prefix_nil s : String.prefix "" s = true.
Proof. by destruct s. Qed.

Lemma prefix_append sep b : String.prefix sep (sep +:+ b) = true.
Proof.
  induction sep as [|c sep IH]; [by destruct b|].
  rewrite append_cons. cbn [String.prefix].
  destruct (ascii_dec c c) as [_|Hne]; [exact IH|done].
Qed.

Lemma string_drop_append sep b : string_drop (String.length sep) (sep +:+ b) = b.
Proof. induction sep as [|c sep IH]; [reflexivity|]. rewrite append_cons. exact IH. Qed.

Lemma strings_Cut_unfold sep s :
  strings_Cut sep s
  = if String.prefix sep s then Some (EmptyString, string_drop (String.length sep) s)
    else match s with
         | EmptyString => None
         | String c s' =>
             match strings_Cut sep s' with
             | Some (before, after) => Some (String c before, after)
             | None => None
             end
         end.
Proof. destruct s; reflexivity. Qed.

(** What [strings.Cut] returns are the two sides of an occurrence of
    the separator. *)
Lemma strings_Cut_Some sep : ∀ s a b,
  strings_Cut sep s = Some (a, b) -> s = a +:+ sep +:+ b.
Proof.
  induction s as [|c s IH]; intros a b; rewrite strings_Cut_unfold.
  - destruct (String.prefix sep "") eqn:Hp; [|discriminate].
    intros [= <- <-]. rewrite append_nil_l. by apply prefix_split.
  - destruct (String.prefix sep (String c s)) eqn:Hp.
    + intros [= <- <-]. rewrite append_nil_l. by apply prefix_split.
    + destruct (strings_Cut sep s) as [[a' b']|] eqn:Hc; [|discriminate].
      intros [= <- <-]. rewrite append_cons. f_equal. by apply IH.
Qed.

(** It finds the separator wherever there is one. *)
Lemma strings_Cut_None sep : ∀ s,
  strings_Cut sep s = None -> ∀ a b, s ≠ a +:+ sep +:+ b.
Proof.
  induction s as [|c s IH]; rewrite strings_Cut_unfold.
  - destruct (String.prefix sep "") eqn:Hp; [discriminate|].
    intros _ a b Heq. destruct a as [|x a]; [|by rewrite append_cons in Heq].
    rewrite append_nil_l in Heq. rewrite Heq, prefix_append in Hp. discriminate.
  - destruct (String.prefix sep (String c s)) eqn:Hp; [discriminate|].
    destruct (strings_Cut sep s) as [[a' b']|] eqn:Hc; [discriminate|].
    intros _ a b Heq. destruct a as [|x a].
    + rewrite append_nil_l in Heq. rewrite Heq, prefix_append in Hp. discriminate.
    + rewrite append_cons in Heq. injection Heq as -> Heq. by apply (IH eq_refl a b).
Qed.

(** The text before a one-byte separator does not hold that byte. *)
Lemma strings_Cut_byte_first c : ∀ s a b,
  strings_Cut (String c EmptyString) s = Some (a, b) -> string_has c a = false.
Proof.
  induction s as [|x s IH]; intros a b; rewrite strings_Cut_unfold.
  - cbn [String.prefix]. discriminate.
  - cbn [String.prefix]. destruct (ascii_dec c x) as [->|Hne].
    + rewrite prefix_nil. intros [= <- <-]. reflexivity.
    + destruct (strings_Cut (String c EmptyString) s) as [[a' b']|] eqn:Hc; [|discriminate].
      intros [= <- <-]. cbn [string_has]. rewrite (IH a' b' eq_refl), orb_false_r.
      apply Ascii.eqb_neq. congruence.
Qed.

(** The text before the first ["::"] does not end with a colon. *)
Lemma strings_Cut_colons_first : ∀ s a b,
  strings_Cut "::" s = Some (a, b) -> ∀ x, a ≠ x +:+ ":".
Proof.
  induction s as [|c s IH]; intros a b; rewrite strings_Cut_unfold.
  - cbn [String.prefix]. discriminate.
  - destruct (String.prefix "::" (String c s)) eqn:Hp.
    + intros [= <- <-] x Heq. destruct x; discriminate.
    + destruct (strings_Cut "::" s) as [[a' b']|] eqn:Hc; [|discriminate].
      intros [= <- <-] x Heq. destruct x as [|y x].
      * rewrite append_nil_l in Heq. injection Heq as -> ->.
        apply strings_Cut_Some in Hc. rewrite append_nil_l in Hc. subst s.
        discriminate.
      * rewrite append_cons in Heq. injection Heq as -> ->. by apply (IH _ _ eq_refl x).
Qed.

Lemma strings_Split1_nonempty s c : strings_Split1 s c ≠ [].
Proof.
  destruct s as [|a s]; cbn [strings_Split1]; [done|].
  destruct (Ascii.eqb a c); [done|]. by destruct (strings_Split1 s c).
Qed.

Lemma strings_Split1_one c : ∀ s y,
  strings_Split1 s c = [y] -> s = y ∧ string_has c y = false.
Proof.
  induction s as [|a s IH]; intros y; cbn [strings_Split1].
  - by intros [= <-].
  - destruct (Ascii.eqb a c) eqn:Hac.
    + intros [= _ Hnil]. by apply strings_Split1_nonempty in Hnil.
    + destruct (strings_Split1 s c) as [|tok toks] eqn:Hs; [by apply strings_Split1_nonempty in Hs|].
      intros [= <- ->]. destruct (IH tok eq_refl) as [-> Hno].
      split; [done|]. cbn [string_has]. by rewrite Hac, Hno.
Qed.

(** Two tokens: the text has one separator, between them. *)
Lemma strings_Split1_two c : ∀ s x y,
  strings_Split1 s c = [x; y] ->
  s = x +:+ String c y ∧ string_has c x = false ∧ string_has c y = false.
Proof.
  induction s as [|a s IH]; intros x y; cbn [strings_Split1]; [discriminate|].
  destruct (Ascii.eqb a c) eqn:Hac.
  - intros [= <- Hs]. apply Ascii.eqb_eq in Hac as ->.
    apply strings_Split1_one in Hs as [-> Hno]. by rewrite append_nil_l.
  - destruct (strings_Split1 s c) as [|tok toks] eqn:Hs; [discriminate|].
    intros [= <- ->]. destruct (IH tok y eq_refl) as (-> & Hx & Hy).
    split; [by rewrite append_cons|]. split; [|done].
    cbn [string_has]. by rewrite Hac, Hx.
Qed.

(** ** The parser: what it accepts and what it rejects *)

(** The four splits and the timestamp of an accepted line. *)
Lemma ParseLogline_inv lineText ll :
  ParseLogline lineText = Ok ll ->
  ∃ head tail nameTs stamp,
    strings_Cut "::" lineText = Some (head, tail)
    ∧ strings_Split1 head ":" = [processID ll; threadID ll]
    ∧ strings_Cut " - " tail = Some (nameTs, message ll)
    ∧ strings_Cut " " nameTs = Some (threadName ll, stamp)
    ∧ time.Parse stamp = Some (timestamp ll).
Proof.
  unfold ParseLogline, strings_SplitN2.
  destruct (strings_Cut "::" lineText) as [[head tail]|] eqn:H1; [|discriminate].
  destruct (strings_Split1 head ":") as [|pid [|thid [|? ?]]] eqn:H2; try discriminate.
  destruct (strings_Cut " - " tail) as [[nameTs msg]|] eqn:H3; [|discriminate].
  destruct (strings_Cut " " nameTs) as [[thName stamp]|] eqn:H4; [|discriminate].
  destruct (time.Parse stamp) as [ts|] eqn:H5; [|discriminate].
  intros [= <-]. cbn [processID threadID threadName timestamp message].
  exists head, tail, nameTs, stamp. auto.
Qed.

(** X1. A line the parser accepts is the text of its five fields in
    the grammar of the input, [pid:thid::name stamp - message], where
    [stamp] is a text that [time.Parse] reads as the timestamp of the
    record: nothing of the line is dropped or changed. *)
Theorem ParseLogline_sound (lineText : string) (ll : LogLine) :
  ParseLogline lineText = Ok ll ->
  ∃ stamp,
    lineText = composeLine (processID ll) (threadID ll) (threadName ll) stamp (message ll)
    ∧ time.Parse stamp = Some (timestamp ll).
Proof.
  intros Hp. apply ParseLogline_inv in Hp as (head & tail & nameTs & stamp & H1 & H2 & H3 & H4 & H5).
  exists stamp. split; [|done].
  apply strings_Cut_Some in H1, H3, H4. apply strings_Split1_two in H2 as (H2 & _).
  subst lineText head tail nameTs. unfold composeLine.
  change (String ":" (threadID ll)) with (":" +:+ threadID ll).
  by rewrite !append_assoc.
Qed.

Lemma ParseLogline_sound_witness :
  ∃ stamp,
    sampleLine = composeLine "p1" "t1" "worker" stamp "**START**"
    ∧ time.Parse stamp = Some 63732596365200000000.
Proof.
  apply (ParseLogline_sound sampleLine sampleRecord). vm_compute. reflexivity.
Defined.

(** X2. In a record the parser returns, neither the process id nor the
    thread id holds a colon, the thread id is not empty, and the thread
    name holds no space. *)
Theorem ParseLogline_field_shape (lineText : string) (ll : LogLine) :
  ParseLogline lineText = Ok ll ->
  string_has ":" (processID ll) = false
  ∧ string_has ":" (threadID ll) = false
  ∧ threadID ll ≠ ""
  ∧ string_has " " (threadName ll) = false.
Proof.
  intros Hp. apply ParseLogline_inv in Hp as (head & tail & nameTs & stamp & H1 & H2 & H3 & H4 & H5).
  apply strings_Split1_two in H2 as (Hhead & Hpid & Hthid).
  split; [done|]. split; [done|]. split.
  - intros Hempty. apply (strings_Cut_colons_first _ _ _ H1 (processID ll)).
    by rewrite Hhead, Hempty.
  - by apply (strings_Cut_byte_first _ _ _ _ H4).
Qed.

Lemma ParseLogline_field_shape_witness :
  string_has ":" "p1" = false ∧ string_has ":" "t1" = false
  ∧ "t1" ≠ "" ∧ string_has " " "worker" = false.
Proof.
  apply (ParseLogline_field_shape sampleLine sampleRecord). vm_compute. reflexivity.
Defined.

(** X3. A line in which ["::"] does not occur is rejected with the
    error [LogLineParseErr] itself. *)
Theorem ParseLogline_without_separator (lineText : string) :
  (∀ a b, lineText ≠ a +:+ "::" +:+ b) ->
  ParseLogline lineText = Err LogLineParseErr.
Proof.
  intros Hno. unfold ParseLogline, strings_SplitN2.
  destruct (strings_Cut "::" lineText) as [[head tail]|] eqn:H1; [|done].
  apply strings_Cut_Some in H1. by apply Hno in H1.
Qed.

Lemma ParseLogline_without_separator_witness :
  ParseLogline "this is not a log line" = Err LogLineParseErr.
Proof.
  apply (ParseLogline_without_separator "this is not a log line").
  apply strings_Cut_None. vm_compute. reflexivity.
Defined.

(** X4. The parser fails in two ways only: with [LogLineParseErr]
    itself, or, when the line has the grammar of the input and its
    timestamp alone cannot be read, with [LogLineParseErr] wrapped with
    the text of the error of [time.Parse]. *)
Theorem ParseLogline_errors (lineText : string) (err : error) :
  ParseLogline lineText = Err err ->
  err = LogLineParseErr
  ∨ ∃ pid thid thName stamp msg,
      lineText = composeLine pid thid thName stamp msg
      ∧ time.Parse stamp = None
      ∧ err = errors_WrapText LogLineParseErr (time_ParseError stamp).
Proof.
  unfold ParseLogline, strings_SplitN2.
  destruct (strings_Cut "::" lineText) as [[head tail]|] eqn:H1; [|intros [= <-]; by left].
  destruct (strings_Split1 head ":") as [|pid [|thid [|? ?]]] eqn:H2;
    try (intros [= <-]; by left).
  destruct (strings_Cut " - " tail) as [[nameTs msg]|] eqn:H3; [|intros [= <-]; by left].
  destruct (strings_Cut " " nameTs) as [[thName stamp]|] eqn:H4; [|intros [= <-]; by left].
  destruct (time.Parse stamp) as [ts|] eqn:H5; [discriminate|].
  intros [= <-]. right. exists pid, thid, thName, stamp, msg. split; [|done].
  apply strings_Cut_Some in H1, H3, H4. apply strings_Split1_two in H2 as (H2 & _).
  subst lineText head tail nameTs. unfold composeLine.
  change (String ":" thid) with (":" +:+ thid).
  by rewrite !append_assoc.
Qed.

Lemma ParseLogline_errors_witness :
  errors_WrapText LogLineParseErr (time_ParseError "2020-08-09 18:59:25.2 +0000 UTC")
  = LogLineParseErr
  ∨ ∃ pid thid thName stamp msg,
      "p1:t1::worker 2020-08-09 18:59:25.2 +0000 UTC - **START**"
      = composeLine pid thid thName stamp msg
      ∧ time.Parse stamp = None
      ∧ errors_WrapText LogLineParseErr (time_ParseError "2020-08-09 18:59:25.2 +0000 UTC")
        = errors_WrapText LogLineParseErr (time_ParseError stamp).
Proof.
  apply (ParseLogline_errors "p1:t1::worker 2020-08-09 18:59:25.2 +0000 UTC - **START**").
  vm_compute. reflexivity.
Defined.

(** ** The tracker: what no call of [Write] undoes *)

(** A segment that exists is kept by [Write], as it is or ended by the
    record. *)
Lemma Write_segment_kept ll st k md :
  threadsMetadata st.1 !! k = Some md ->
  threadsMetadata (fst (Write ll st)).1 !! k = Some md
  ∨ (k = ThreadId ll
     ∧ threadsMetadata (fst (Write ll st)).1 !! k = Some (endedSegment md ll)).
Proof.
  intros Hmd. destruct (decide (ThreadId ll = k)) as [<-|Hne].
  - destruct st as [slw w]. cbn [fst] in Hmd. unfold Write. cbn [fst]. rewrite Hmd.
    unfold writeLogLine. destruct (File_Write _ _ _) as [w' [err|]]; [by left|].
    destruct (string_eqb (Message ll) threadLogsEndMarker).
    + right. split; [done|]. cbn [fst threadsMetadata]. by rewrite lookup_insert_eq.
    + by left.
  - left. by rewrite Write_other_keys.
Qed.

(** X5. Whatever records are written and whatever the calls return, a
    segment of the tracker is never removed, and its process id, its
    start timestamp and the path of its file never change: they are
    those of the record that created it. *)
Theorem WriteAll_keeps_segments (recs : list LogLine) (st : State)
    (k : string) (md : threadFileMetadata) :
  threadsMetadata st.1 !! k = Some md ->
  ∃ md', threadsMetadata (WriteAll recs st).1 !! k = Some md'
         ∧ processId md' = processId md
         ∧ logsStartTimestamp md' = logsStartTimestamp md
         ∧ logFilepath md' = logFilepath md.
Proof.
  revert st md. induction recs as [|ll recs IH]; intros st md Hmd.
  { exists md. auto. }
  rewrite WriteAll_cons.
  destruct (Write_segment_kept ll st k md Hmd) as [Hk|[_ Hk]].
  - by apply IH.
  - destruct (IH _ _ Hk) as (md' & Hmd' & Hp & Hs & Hf). exists md'. auto.
Qed.

Lemma WriteAll_keeps_segments_witness :
  ∃ md', threadsMetadata
           (WriteAll [markerRecord "t1" 20 threadLogsStartMarker;
                      markerRecord "t2" 21 "stray"]
                     (threeThreads, sampleWorld)).1 !! "t1" = Some md'
         ∧ processId md' = "p1"
         ∧ logsStartTimestamp md' = atSecond 0
         ∧ logFilepath md' = "mergedlogs/p1-t1.log".
Proof.
  apply (WriteAll_keeps_segments
           [markerRecord "t1" 20 threadLogsStartMarker; markerRecord "t2" 21 "stray"]
           (threeThreads, sampleWorld) "t1" (closedSegment "t1" 0 10)).
  reflexivity.
Defined.

(** A record of a thread whose segment is closed is refused, and
    nothing changes. *)
Lemma Write_closed ll slw w md :
  threadsMetadata slw !! ThreadId ll = Some md ->
  logFd md = None ->
  Write ll (slw, w)
  = ((slw, w),
     Some (errors_Wrap os_ErrInvalid
             ("error occurred while writing to [" +:+ logFilepath md +:+ "]"))).
Proof.
  intros Hmd Hfd. unfold Write. cbn [fst]. rewrite Hmd.
  unfold writeLogLine, File_Write. by rewrite Hfd.
Qed.

(** X6. A closed segment is final: whatever records follow, the
    segment stays what it is, start, end and all, and every record of
    its thread among them is refused with the error of a write to a
    file that is not open. A thread id is not used twice. *)
Theorem closed_segment_is_final (recs : list LogLine) (st : State)
    (k : string) (md : threadFileMetadata) :
  threadsMetadata st.1 !! k = Some md ->
  logFd md = None ->
  threadsMetadata (WriteAll recs st).1 !! k = Some md
  ∧ ∀ i ll, recs !! i = Some ll -> ThreadId ll = k ->
      WriteAll_errors recs st !! i
      = Some (Some (errors_Wrap os_ErrInvalid
                      ("error occurred while writing to [" +:+ logFilepath md +:+ "]"))).
Proof.
  revert st. induction recs as [|ll recs IH]; intros st Hmd Hfd.
  { split; [done|]. intros i ll Hi. by rewrite lookup_nil in Hi. }
  rewrite WriteAll_cons. cbn [WriteAll_errors].
  assert (threadsMetadata (fst (Write ll st)).1 !! k = Some md) as Hkept.
  { destruct (decide (ThreadId ll = k)) as [<-|Hne].
    - destruct st as [slw w]. by rewrite (Write_closed ll slw w md).
    - by rewrite Write_other_keys. }
  destruct (IH _ Hkept Hfd) as [Hfinal Herrs]. split; [done|].
  intros [|i] ll' Hi Hk; cbn [lookup list_lookup] in *.
  - injection Hi as ->. subst k. destruct st as [slw w].
    by rewrite (Write_closed ll' slw w md).
  - by apply (Herrs i ll').
Qed.

Lemma closed_segment_is_final_witness :
  threadsMetadata
    (WriteAll [markerRecord "t1" 20 threadLogsStartMarker]
              (threeThreads, sampleWorld)).1 !! "t1"
  = Some (closedSegment "t1" 0 10)
  ∧ WriteAll_errors [markerRecord "t1" 20 threadLogsStartMarker]
      (threeThreads, sampleWorld) !! 0%nat
    = Some (Some (errors_Wrap os_ErrInvalid
                    "error occurred while writing to [mergedlogs/p1-t1.log]")).
Proof.
  destruct (closed_segment_is_final [markerRecord "t1" 20 threadLogsStartMarker]
              (threeThreads, sampleWorld) "t1" (closedSegment "t1" 0 10))
    as [Hfinal Herrs].
  - reflexivity.
  - reflexivity.
  - split; [exact Hfinal|].
    apply (Herrs 0%nat (markerRecord "t1" 20 threadLogsStartMarker)); reflexivity.
Defined.

(** The files after a call of [Write]: the same, or the same with a
    new empty file, or the same with one file longer by the line. *)
Lemma Write_files ll st :
  files (fst (Write ll st)).2 = files st.2
  ∨ (∃ path, files st.2 !! path = None
             ∧ files (fst (Write ll st)).2 = <[path := ""]> (files st.2))
  ∨ (∃ path, files (fst (Write ll st)).2
             = <[path := default "" (files st.2 !! path) +:+ lineOf ll]> (files st.2)).
Proof.
  destruct (Write ll st) as [st' [err|]] eqn:Hw.
  2:{ right. right. cbn [fst]. by apply Write_appends_line. }
  cbn [fst]. destruct st as [slw w]. unfold Write in Hw. cbn [fst snd] in *.
  assert (∀ thState slw0 w0 st0 err0,
            writeLogLine ll thState (slw0, w0) = (st0, Some err0) -> files st0.2 = files w0)
    as Hfail.
  { intros thState slw0 w0 st0 err0. unfold writeLogLine, File_Write.
    destruct (logFd thState) as [path|]; [|by intros [= <- _]].
    destruct (decide (path ∈ write_denied w0)); [by intros [= <- _]|].
    by destruct (string_eqb (Message ll) threadLogsEndMarker). }
  destruct (threadsMetadata slw !! ThreadId ll) as [thState|].
  { left. by eapply Hfail. }
  unfold initialize in Hw. destruct (negb _); [left; by simplify_eq/=|].
  unfold os_OpenFile in Hw.
  destruct (decide (threadLogFilePath ll ∈ open_denied w)); [left; by simplify_eq/=|].
  destruct (files w !! threadLogFilePath ll) as [old|] eqn:Hold.
  - left. by eapply Hfail.
  - right. left. exists (threadLogFilePath ll). split; [done|].
    by rewrite (Hfail _ _ _ _ _ Hw).
Qed.

Lemma Write_files_grow ll st path old :
  files st.2 !! path = Some old ->
  ∃ suffix, files (fst (Write ll st)).2 !! path = Some (old +:+ suffix).
Proof.
  intros Hold. destruct (Write_files ll st) as [->|[(p & Hnone & ->)|(p & ->)]].
  - exists "". by rewrite append_nil_r.
  - exists "". rewrite append_nil_r, lookup_insert_ne; [done|]. congruence.
  - destruct (decide (p = path)) as [->|Hne].
    + exists (lineOf ll). by rewrite lookup_insert_eq, Hold.
    + exists "". by rewrite append_nil_r, lookup_insert_ne.
Qed.

(** X7. Files are only appended to: whatever records are written and
    whatever the calls return, a file that exists, be it from an
    earlier run, still exists afterwards and begins with what it held
    before. Nothing is truncated, removed or rolled back. *)
Theorem WriteAll_files_grow (recs : list LogLine) (st : State) (path old : string) :
  files st.2 !! path = Some old ->
  ∃ suffix, files (WriteAll recs st).2 !! path = Some (old +:+ suffix).
Proof.
  revert st old. induction recs as [|ll recs IH]; intros st old Hold.
  { exists "". by rewrite append_nil_r. }
  rewrite WriteAll_cons.
  destruct (Write_files_grow ll st path old Hold) as [s1 H1].
  destruct (IH _ _ H1) as [s2 H2]. exists (s1 +:+ s2). by rewrite <- append_assoc.
Qed.

Lemma WriteAll_files_grow_witness :
  ∃ suffix,
    files (WriteAll [markerRecord "t1" 0 threadLogsStartMarker] (NewLogWriter, rerunWorld)).2
      !! "mergedlogs/p1-t1.log"
    = Some ("left from an earlier run" +:+ suffix).
Proof.
  apply (WriteAll_files_grow [markerRecord "t1" 0 threadLogsStartMarker]
           (NewLogWriter, rerunWorld) "mergedlogs/p1-t1.log" "left from an earlier run").
  reflexivity.
Defined.

(** ** The tracker: the segments it ends up with *)

Lemma ready_initial recs w :
  firstIsStart recs -> noneAfterEnd recs -> distinctFiles recs -> freshWorld w recs ->
  ready (NewLogWriter, w) ∅ ∅ recs.
Proof.
  intros Hfirst Hlast Hdist (Hod & Hwd & Hfresh). unfold ready.
  split; [by apply tracks_empty|]. split; [apply followsProtocol_iff; by split|].
  split; [done|]. split.
  - intros ll k md _. cbn [fst NewLogWriter threadsMetadata]. by rewrite lookup_empty.
  - intros ll Hin _. by apply Hfresh.
Qed.

(** After the first record, the tracker is ready for the others. *)
Lemma ready_step ll rest st opened closed :
  ready st opened closed (ll :: rest) ->
  snd (Write ll st) = None
  ∧ ready (fst (Write ll st)) (nextOpened opened ll) (nextClosed closed ll) rest.
Proof.
  intros (Htr & Hproto & Hdist & HP1 & HP3).
  assert (ll ∈ ll :: rest) as Hhead by (apply elem_of_cons; by left).
  assert (∀ ll', ll' ∈ rest -> ll' ∈ ll :: rest) as Htail
      by (intros ll' Hin; apply elem_of_cons; by right).
  destruct (Write_step ll st opened closed rest Htr Hproto) as
    (Herr & Htr1 & Hproto1 & (md1 & Hmd1 & Hpath1) & Hfiles1).
  { intros k md. by apply HP1. }
  { by apply HP3. }
  assert (∀ ll', ll' ∈ ll :: rest ->
                 threadLogFilePath ll' = storePath st ll -> ThreadId ll' = ThreadId ll) as Howner.
  { intros ll' Hin. apply (storePath_owner st opened closed ll ll' Htr).
    - intros k md. by apply HP1.
    - by apply Hdist. }
  split; [done|]. split; [done|]. split; [done|]. split; [|split].
  - intros l1 l2 Hl1 Hl2. apply Hdist; auto.
  - intros ll' k md Hin Hk Hp. destruct (decide (k = ThreadId ll)) as [->|Hne].
    + rewrite Hmd1 in Hk. injection Hk as <-. apply Howner; [auto|]. by rewrite Hp.
    + rewrite Write_other_keys in Hk by congruence. by apply (HP1 ll' k md); auto.
  - intros ll' Hin Hnew. unfold nextOpened in Hnew.
    rewrite Hfiles1. rewrite lookup_insert_ne.
    + apply HP3; [auto|]. intros Ho. apply Hnew. by apply elem_of_union_r.
    + intros Hp. apply Hnew. apply elem_of_union_l, elem_of_singleton.
      apply Howner; [auto|done].
Qed.

(** The segment of the thread of a record, after the record. *)
Lemma Write_step_segment ll rest st opened closed :
  ready st opened closed (ll :: rest) ->
  threadsMetadata (fst (Write ll st)).1 !! ThreadId ll
  = Some (match threadsMetadata st.1 !! ThreadId ll with
          | Some md => advance md [ll]
          | None => newSegment ll
          end).
Proof.
  intros ((Hdom & Hfd & Hinj & Hex & Hod & Hwd) & Hproto & Hdist & HP1 & HP3).
  destruct st as [slw w]. cbn [fst snd] in *.
  cbn [followsProtocol] in Hproto.
  destruct (decide (ThreadId ll ∈ closed)) as [Hc|Hnc]; [discriminate|].
  destruct (decide (ThreadId ll ∈ opened)) as [Ho|Hno].
  - pose proof Ho as Hin. apply Hdom in Hin as [md Hmd].
    pose proof (Hfd _ _ Hmd) as Hopen. rewrite decide_False in Hopen by done.
    rewrite (Write_existing ll slw w md Hmd Hopen Hwd), Hmd. cbn [fst advance foldl].
    destruct (string_eqb (Message ll) threadLogsEndMarker); cbn [threadsMetadata].
    + by rewrite lookup_insert_eq.
    + done.
  - apply andb_true_iff in Hproto as [Hstart _]. apply string_eqb_true in Hstart.
    assert (threadsMetadata slw !! ThreadId ll = None) as Hnone.
    { apply eq_None_not_Some. intros Hsome. by apply Hdom in Hsome. }
    rewrite (Write_new ll slw w Hnone Hstart Hod Hwd), Hnone.
    + cbn [fst threadsMetadata]. by rewrite lookup_insert_eq.
    + apply HP3; [apply elem_of_cons; by left|done].
Qed.

Lemma advance_app md rs1 rs2 : advance md (rs1 ++ rs2) = advance (advance md rs1) rs2.
Proof. unfold advance. by rewrite foldl_app. Qed.

(** Every segment, after all the records. *)
Lemma WriteAll_segments recs : ∀ st opened closed,
  ready st opened closed recs ->
  ∀ k, threadsMetadata (WriteAll recs st).1 !! k
       = match threadsMetadata st.1 !! k with
         | Some md => Some (advance md (recordsOf k recs))
         | None => expectedSegment (recordsOf k recs)
         end.
Proof.
  induction recs as [|ll rest IH]; intros st opened closed Hready k.
  { unfold WriteAll, recordsOf. cbn [foldl]. rewrite filter_nil.
    by destruct (threadsMetadata st.1 !! k). }
  rewrite WriteAll_cons.
  pose proof (Write_step_segment ll rest st opened closed Hready) as Hseg.
  destruct (ready_step ll rest st opened closed Hready) as [_ Hready1].
  rewrite (IH _ _ _ Hready1 k). unfold recordsOf.
  destruct (decide (k = ThreadId ll)) as [->|Hne].
  - rewrite Hseg, filter_cons_True by done.
    destruct (threadsMetadata st.1 !! ThreadId ll) as [md|].
    + reflexivity.
    + done.
  - rewrite Write_other_keys by congruence. by rewrite filter_cons_False by congruence.
Qed.

Lemma advance_static md rs :
  processId (advance md rs) = processId md
  ∧ logsStartTimestamp (advance md rs) = logsStartTimestamp md
  ∧ logFilepath (advance md rs) = logFilepath md.
Proof.
  revert md. induction rs as [|ll rs IH]; intros md; [done|].
  change (advance md (ll :: rs)) with (advance (advance md [ll]) rs).
  destruct (IH (advance md [ll])) as (-> & -> & ->). cbn [advance foldl].
  by destruct (string_eqb (Message ll) threadLogsEndMarker).
Qed.

Lemma advance_no_end md rs :
  (∀ ll, ll ∈ rs -> Message ll ≠ threadLogsEndMarker) -> advance md rs = md.
Proof.
  revert md. induction rs as [|ll rs IH]; intros md Hno; [done|].
  change (advance md (ll :: rs)) with (advance (advance md [ll]) rs).
  assert (advance md [ll] = md) as ->.
  { cbn [advance foldl].
    replace (string_eqb (Message ll) threadLogsEndMarker) with false; [done|].
    symmetry. apply string_eqb_false. apply Hno. apply elem_of_cons. by left. }
  apply IH. intros ll' Hin. apply Hno. apply elem_of_cons. by right.
Qed.

Lemma advance_end md rs ll :
  Message ll = threadLogsEndMarker ->
  advance md (rs ++ [ll]) = endedSegment (advance md rs) ll.
Proof.
  intros Hend. rewrite advance_app. cbn [advance foldl].
  apply string_eqb_true in Hend. by rewrite Hend.
Qed.

(** X8. Under the conditions of the demultiplexing (a stream that
    follows the protocol, threads with files of their own, none there
    yet, no call of the operating system failing), the segment of a
    thread carries the process id, the timestamp and the file path of
    the first record of the thread; as long as no end marker has come
    its end is the zero instant and its file is open; once the last
    record of the thread is its end marker, its end is the timestamp of
    that record and its file is closed. *)
Theorem WriteAll_metadata (recs : list LogLine) (w : World)
    (k : string) (md : threadFileMetadata) :
  firstIsStart recs -> noneAfterEnd recs -> distinctFiles recs -> freshWorld w recs ->
  threadsMetadata (WriteAll recs (NewLogWriter, w)).1 !! k = Some md ->
  ∃ first rest,
    recordsOf k recs = first :: rest
    ∧ processId md = ProcessID first
    ∧ logsStartTimestamp md = Timestamp first
    ∧ logFilepath md = threadLogFilePath first
    ∧ ((∀ e, e ∈ rest -> Message e ≠ threadLogsEndMarker) ->
       logsEndTimestamp md = time.zero ∧ logFd md = Some (threadLogFilePath first))
    ∧ (∀ e, last rest = Some e -> Message e = threadLogsEndMarker ->
       logsEndTimestamp md = Timestamp e ∧ logFd md = None).
Proof.
  intros Hfirst Hlast Hdist Hfresh Hmd.
  rewrite (WriteAll_segments recs _ ∅ ∅ (ready_initial recs w Hfirst Hlast Hdist Hfresh) k) in Hmd.
  cbn [fst NewLogWriter threadsMetadata] in Hmd. rewrite lookup_empty in Hmd.
  destruct (recordsOf k recs) as [|first rest]; [discriminate|].
  cbn [expectedSegment] in Hmd. injection Hmd as <-.
  exists first, rest. split; [done|].
  destruct (advance_static (newSegment first) rest) as (-> & -> & ->).
  split; [done|]. split; [done|]. split; [done|]. split.
  - intros Hno. by rewrite advance_no_end.
  - intros e He Hend. apply last_Some in He as [rest' ->].
    by rewrite advance_end.
Qed.

Lemma WriteAll_metadata_witness :
  ∃ first rest,
    recordsOf "t1" interleavedLog = first :: rest
    ∧ processId (closedSegment "t1" 0 4) = ProcessID first
    ∧ logsStartTimestamp (closedSegment "t1" 0 4) = Timestamp first
    ∧ logFilepath (closedSegment "t1" 0 4) = threadLogFilePath first
    ∧ ((∀ e, e ∈ rest -> Message e ≠ threadLogsEndMarker) ->
       logsEndTimestamp (closedSegment "t1" 0 4) = time.zero
       ∧ logFd (closedSegment "t1" 0 4) = Some (threadLogFilePath first))
    ∧ (∀ e, last rest = Some e -> Message e = threadLogsEndMarker ->
       logsEndTimestamp (closedSegment "t1" 0 4) = Timestamp e
       ∧ logFd (closedSegment "t1" 0 4) = None).
Proof.
  apply (WriteAll_metadata interleavedLog sampleWorld "t1" (closedSegment "t1" 0 4)).
  - apply followsProtocol_iff. vm_compute. reflexivity.
  - apply followsProtocol_iff. vm_compute. reflexivity.
  - apply interleavedLog_distinctFiles.
  - split; [reflexivity|]. split; [reflexivity|]. intros ll _. apply lookup_empty.
  - vm_compute. reflexivity.
Defined.

Lemma recordsOf_split k : ∀ recs l1 e l2,
  recordsOf k recs = (l1 ++ e :: l2)%list ->
  ∃ pre suf, recs = (pre ++ e :: suf)%list ∧ recordsOf k pre = l1 ∧ recordsOf k suf = l2.
Proof.
  unfold recordsOf. induction recs as [|x recs IH]; intros l1 e l2 Heq.
  { rewrite filter_nil in Heq. by destruct l1. }
  destruct (decide (ThreadId x = k)) as [Hx|Hx].
  - rewrite filter_cons_True in Heq by done. destruct l1 as [|y l1].
    + injection Heq as -> <-. exists [], recs. by rewrite filter_nil.
    + injection Heq as -> Heq. destruct (IH _ _ _ Heq) as (pre & suf & -> & <- & <-).
      exists (y :: pre), suf. by rewrite filter_cons_True.
  - rewrite filter_cons_False in Heq by done.
    destruct (IH _ _ _ Heq) as (pre & suf & -> & <- & <-).
    exists (x :: pre), suf. by rewrite filter_cons_False.
Qed.

Lemma recordsOf_nil k recs :
  recordsOf k recs = [] -> ∀ ll, ll ∈ recs -> ThreadId ll ≠ k.
Proof.
  unfold recordsOf. intros Hnil ll Hin Hk.
  assert (ll ∈ filter (fun ll => ThreadId ll = k) recs) as Hf
      by (by apply list_elem_of_filter).
  rewrite Hnil in Hf. by apply elem_of_nil in Hf.
Qed.

Lemma recordsOf_thread k recs ll : ll ∈ recordsOf k recs -> ThreadId ll = k.
Proof. unfold recordsOf. intros Hin. by apply list_elem_of_filter in Hin as [? _]. Qed.

Lemma rendered_app rs1 rs2 : rendered (rs1 ++ rs2) = rendered rs1 +:+ rendered rs2.
Proof.
  induction rs1 as [|ll rs1 IH]; [reflexivity|].
  cbn [app rendered]. by rewrite IH, append_assoc.
Qed.

(** A segment that is closed has met an end marker. *)
Lemma advance_closed md rs :
  logFd md ≠ None -> logFd (advance md rs) = None ->
  ∃ e, e ∈ rs ∧ Message e = threadLogsEndMarker.
Proof.
  intros Hopen Hclosed.
  destruct (decide (Exists (fun e => Message e = threadLogsEndMarker) rs)) as [Hex|Hno].
  - apply Exists_exists in Hex as (e & Hin & He). eauto.
  - rewrite advance_no_end in Hclosed; [done|].
    intros ll Hin Hend. apply Hno. apply Exists_exists. eauto.
Qed.

(** X9. Under the conditions of the demultiplexing, the file of a
    closed segment begins with the line of the start marker of its
    thread and ends with the line of its end marker, with the lines of
    the other records of the thread in between. *)
Theorem closed_store_runs_from_start_to_end (recs : list LogLine) (w : World)
    (k : string) (md : threadFileMetadata) :
  firstIsStart recs -> noneAfterEnd recs -> distinctFiles recs -> freshWorld w recs ->
  threadsMetadata (WriteAll recs (NewLogWriter, w)).1 !! k = Some md ->
  logFd md = None ->
  ∃ first middle final,
    recordsOf k recs = (first :: middle ++ [final])%list
    ∧ Message first = threadLogsStartMarker
    ∧ Message final = threadLogsEndMarker
    ∧ files (WriteAll recs (NewLogWriter, w)).2 !! logFilepath md
      = Some (lineOf first +:+ rendered middle +:+ lineOf final).
Proof.
  intros Hfirst Hlast Hdist Hfresh Hmd Hclosed.
  pose proof (ready_initial recs w Hfirst Hlast Hdist Hfresh) as Hready.
  pose proof Hready as (Htr & Hproto & _ & HP1 & HP3).
  destruct (WriteAll_demux recs _ ∅ ∅ Htr Hproto Hdist HP1 HP3) as (_ & _ & Hstore).
  pose proof (Hstore k md Hmd) as Hfile.
  unfold storeBefore in Hfile. cbn [fst NewLogWriter threadsMetadata] in Hfile.
  rewrite lookup_empty, append_nil_l in Hfile.
  rewrite (WriteAll_segments recs _ ∅ ∅ Hready k) in Hmd.
  cbn [fst NewLogWriter threadsMetadata] in Hmd. rewrite lookup_empty in Hmd.
  destruct (recordsOf k recs) as [|first rest] eqn:Hrs; [discriminate|].
  cbn [expectedSegment] in Hmd. injection Hmd as <-.
  (* the first record of the thread is its start marker *)
  assert (Message first = threadLogsStartMarker) as Hstart.
  { destruct (recordsOf_split k recs [] first rest Hrs) as (pre & suf & -> & Hpre & _).
    apply (Hfirst pre first suf eq_refl). intros ll' Hin.
    rewrite (recordsOf_thread k (pre ++ first :: suf) first)
      by (rewrite Hrs; apply elem_of_cons; by left).
    by apply (recordsOf_nil k pre). }
  (* an end marker closed the segment, and it is the last record *)
  destruct (advance_closed (newSegment first) rest) as (e & Hin & Hend); [done|done|].
  apply list_elem_of_split in Hin as (middle & after & ->).
  destruct (recordsOf_split k recs (first :: middle) e after Hrs)
    as (pre & suf & -> & _ & Hsuf).
  assert (after = []) as ->.
  { destruct after as [|x after]; [done|]. exfalso.
    assert (x ∈ recordsOf k suf) as Hx by (rewrite Hsuf; apply elem_of_cons; by left).
    pose proof (recordsOf_thread _ _ _ Hx) as Hxk.
    unfold recordsOf in Hx. apply list_elem_of_filter in Hx as [_ Hx].
    apply (Hlast pre e suf eq_refl Hend x Hx). rewrite Hxk. symmetry.
    apply (recordsOf_thread k (pre ++ e :: suf)). rewrite Hrs.
    apply elem_of_cons. right. apply elem_of_app. right. apply elem_of_cons. by left. }
  exists first, middle, e. split; [done|]. split; [done|]. split; [done|].
  rewrite Hfile. cbn [rendered]. rewrite rendered_app. cbn [rendered].
  by rewrite append_nil_r.
Qed.

Lemma closed_store_runs_from_start_to_end_witness :
  ∃ first middle final,
    recordsOf "t1" interleavedLog = (first :: middle ++ [final])%list
    ∧ Message first = threadLogsStartMarker
    ∧ Message final = threadLogsEndMarker
    ∧ files (WriteAll interleavedLog (NewLogWriter, sampleWorld)).2
        !! logFilepath (closedSegment "t1" 0 4)
      = Some (lineOf first +:+ rendered middle +:+ lineOf final).
Proof.
  apply (closed_store_runs_from_start_to_end interleavedLog sampleWorld "t1"
           (closedSegment "t1" 0 4)).
  - apply followsProtocol_iff. vm_compute. reflexivity.
  - apply followsProtocol_iff. vm_compute. reflexivity.
  - apply interleavedLog_distinctFiles.
  - split; [reflexivity|]. split; [reflexivity|]. intros ll _. apply lookup_empty.
  - vm_compute. reflexivity.
  - reflexivity.
Defined.

(** ** The queries and the order of the maps *)

Lemma GetActive_filter order t1 t2 :
  GetActiveThreadCountBetweenInterval order t1 t2
  = map (fun e : string * threadFileMetadata => threadInfoOf e.1 e.2)
        (filter (fun e => activeIn t1 t2 e = true) order).
Proof. unfold GetActiveThreadCountBetweenInterval. by rewrite GetActive_foldl. Qed.

(** X10. The answer of [GetActiveThreadCountBetweenInterval] depends
    on the order in which the map is visited by its order only: two
    runs return the same threads, each thread at most once, and no more
    threads than the tracker has. *)
Theorem GetActiveThreadCountBetweenInterval_order
    (slw : SyncLogWriter) (order1 order2 : list (string * threadFileMetadata))
    (t1 t2 : time.Time) :
  ranges (threadsMetadata slw) order1 ->
  ranges (threadsMetadata slw) order2 ->
  GetActiveThreadCountBetweenInterval order1 t1 t2
    ≡ₚ GetActiveThreadCountBetweenInterval order2 t1 t2
  ∧ NoDup (map ti_ThreadId (GetActiveThreadCountBetweenInterval order1 t1 t2))
  ∧ (length (GetActiveThreadCountBetweenInterval order1 t1 t2)
     <= size (threadsMetadata slw))%nat.
Proof.
  intros H1 H2. unfold ranges in H1, H2. rewrite !GetActive_filter.
  split; [by rewrite H1, H2|]. split.
  - rewrite map_map. cbn [ti_ThreadId threadInfoOf].
    change (map (fun x : string * threadFileMetadata => x.1)
              (filter (fun e => activeIn t1 t2 e = true) order1))
      with ((filter (fun e => activeIn t1 t2 e = true) order1).*1).
    eapply sublist_NoDup; [|apply fmap_sublist, sublist_filter].
    rewrite H1. apply NoDup_fst_map_to_list.
  - rewrite length_map. etrans; [apply length_filter|].
    by rewrite H1, length_map_to_list.
Qed.

Lemma GetActiveThreadCountBetweenInterval_order_witness :
  GetActiveThreadCountBetweenInterval (canonicalOrder threeThreads) (atSecond 1) (atSecond 3)
    ≡ₚ GetActiveThreadCountBetweenInterval
         (rev (canonicalOrder threeThreads)) (atSecond 1) (atSecond 3)
  ∧ NoDup (map ti_ThreadId
             (GetActiveThreadCountBetweenInterval
                (canonicalOrder threeThreads) (atSecond 1) (atSecond 3)))
  ∧ (length (GetActiveThreadCountBetweenInterval
               (canonicalOrder threeThreads) (atSecond 1) (atSecond 3))
     <= size (threadsMetadata threeThreads))%nat.
Proof.
  apply (GetActiveThreadCountBetweenInterval_order threeThreads
           (canonicalOrder threeThreads) (rev (canonicalOrder threeThreads))).
  - unfold ranges, canonicalOrder. reflexivity.
  - unfold ranges, canonicalOrder. symmetry. apply Permutation_rev.
Defined.

Lemma concurrencyCount_le_size m A : (concurrencyCount m A <= size m)%nat.
Proof.
  unfold concurrencyCount. etrans; [apply length_filter|]. by rewrite length_map_to_list.
Qed.

(** X11. The peak that [GetMaxConcurrencyAndEpoch] returns does not
    depend on the orders in which the maps are visited: two runs return
    the same count. It is 0, with the zero instant, for a tracker
    without threads, and otherwise at least 1 and at most the number of
    threads. *)
Theorem GetMaxConcurrencyAndEpoch_peak_order
    (slw : SyncLogWriter)
    (order order' : list (string * threadFileMetadata))
    (innerOrder innerOrder' : string -> list (string * threadFileMetadata))
    (memoOrder memoOrder' : gmap string Z -> list (string * Z)) :
  validOrders slw order innerOrder memoOrder ->
  validOrders slw order' innerOrder' memoOrder' ->
  Z.of_nat (size (threadsMetadata slw)) < 2 ^ 63 ->
  ∃ maxC epoch epoch',
    GetMaxConcurrencyAndEpoch slw order innerOrder memoOrder = Some (maxC, epoch)
    ∧ GetMaxConcurrencyAndEpoch slw order' innerOrder' memoOrder' = Some (maxC, epoch')
    ∧ (threadsMetadata slw = ∅ -> maxC = 0 ∧ epoch = time.zero ∧ epoch' = time.zero)
    ∧ (threadsMetadata slw ≠ ∅ -> 1 <= maxC <= Z.of_nat (size (threadsMetadata slw))).
Proof.
  intros Hv Hv' Hsize.
  destruct (maxConcurrency_spec slw order innerOrder memoOrder Hv Hsize)
    as (maxC & epoch & Hret & Hub & Hempty & Hwho).
  destruct (maxConcurrency_spec slw order' innerOrder' memoOrder' Hv' Hsize)
    as (maxC' & epoch' & Hret' & Hub' & Hempty' & Hwho').
  assert (maxC' = maxC) as ->.
  { destruct (decide (threadsMetadata slw = ∅)) as [He|Hne].
    - destruct (Hempty He) as [-> _]. by destruct (Hempty' He) as [-> _].
    - destruct (Hwho Hne) as (k & A & HA & -> & _).
      destruct (Hwho' Hne) as (k' & A' & HA' & -> & _).
      pose proof (Hub' k A HA). pose proof (Hub k' A' HA'). lia. }
  exists maxC, epoch, epoch'. split; [done|]. split; [done|]. split.
  - intros He. destruct (Hempty He) as [-> ->]. by destruct (Hempty' He) as [_ ->].
  - intros Hne. destruct (Hwho Hne) as (k & A & HA & -> & _).
    pose proof (concurrencyCount_pos _ _ _ HA).
    pose proof (concurrencyCount_le_size (threadsMetadata slw) A). lia.
Qed.

Lemma GetMaxConcurrencyAndEpoch_peak_order_witness :
  ∃ maxC epoch epoch',
    GetMaxConcurrencyAndEpoch threeThreads (canonicalOrder threeThreads)
      (fun _ => canonicalOrder threeThreads) canonicalMemoOrder = Some (maxC, epoch)
    ∧ GetMaxConcurrencyAndEpoch threeThreads (canonicalOrder threeThreads)
        (fun _ => canonicalOrder threeThreads) (memoOrderFirst "t2") = Some (maxC, epoch')
    ∧ (threadsMetadata threeThreads = ∅ ->
       maxC = 0 ∧ epoch = time.zero ∧ epoch' = time.zero)
    ∧ (threadsMetadata threeThreads ≠ ∅ ->
       1 <= maxC <= Z.of_nat (size (threadsMetadata threeThreads))).
Proof.
  apply (GetMaxConcurrencyAndEpoch_peak_order threeThreads).
  - apply validOrders_canonical.
  - split; [unfold ranges, canonicalOrder; reflexivity|].
    split; [intros _; unfold ranges, canonicalOrder; reflexivity|].
    intros memo. unfold ranges, memoOrderFirst.
    destruct (memo !! "t2") as [c|] eqn:Hc; [|reflexivity].
    by apply map_to_list_delete.
  - vm_compute. reflexivity.
Defined.





(** X13. The mean that [GetAvgStdThreadRuntime] returns, a binary64,
    does not depend on the orders in which the map is visited. *)
Theorem GetAvgStdThreadRuntime_mean_order
    (slw : SyncLogWriter) (order1 order2 order1' order2' : list (string * threadFileMetadata)) :
  ranges (threadsMetadata slw) order1 ->
  ranges (threadsMetadata slw) order1' ->
  fst (GetAvgStdThreadRuntime slw order1 order2)
  = fst (GetAvgStdThreadRuntime slw order1' order2').
Proof.
  intros H1 H1'. rewrite !binary64_stats. cbn [fst].
  rewrite !aggRuntimeOf_sum.
  by rewrite (sumZ_perm _ _ (runtimesAlong_perm _ _ H1)),
             (sumZ_perm _ _ (runtimesAlong_perm _ _ H1')).
Qed.

Lemma GetAvgStdThreadRuntime_mean_order_witness :
  fst (GetAvgStdThreadRuntime timedThreads
         (canonicalOrder timedThreads) (canonicalOrder timedThreads))
  = fst (GetAvgStdThreadRuntime timedThreads
           (rev (canonicalOrder timedThreads)) (rev (canonicalOrder timedThreads))).
Proof.
  apply (GetAvgStdThreadRuntime_mean_order timedThreads).
  - unfold ranges, canonicalOrder. reflexivity.
  - unfold ranges, canonicalOrder. symmetry. apply Permutation_rev.
Defined.

(** A runtime is a [Duration] in milliseconds. *)
Lemma runtimeMs_bound A : -9223372036854 <= runtimeMs A <= 9223372036854.
Proof.
  unfold runtimeMs, time.Milliseconds. rewrite Sub_clamp.
  set (d := Z.max _ _).
  assert (time.minDuration <= d <= time.maxDuration) as [Hlo Hhi]
      by (unfold d, time.minDuration, time.maxDuration; lia).
  split.
  - change (-9223372036854) with (Z.quot time.minDuration 1000000).
    apply Z.quot_le_mono; [lia|done].
  - change 9223372036854 with (Z.quot time.maxDuration 1000000).
    apply Z.quot_le_mono; [lia|done].
Qed.

Lemma sumZ_runtimes_bound order :
  - (Z.of_nat (length order) * 9223372036854)
  <= sumZ (runtimesAlong order)
  <= Z.of_nat (length order) * 9223372036854.
Proof.
  induction order as [|[k A] order IH]; [simpl; lia|].
  cbn [runtimesAlong map sumZ fold_right length snd].
  fold (runtimesAlong order). fold (sumZ (runtimesAlong order)).
  pose proof (runtimeMs_bound A). lia.
Qed.

(** X14. With a million threads or fewer, the sum of the runtimes that
    [GetAvgStdThreadRuntime] keeps in an [int64] does not overflow: it
    is the sum of the runtimes, in whatever order they are added. *)
Theorem aggRuntimeOf_no_overflow
    (slw : SyncLogWriter) (order : list (string * threadFileMetadata)) :
  ranges (threadsMetadata slw) order ->
  Z.of_nat (size (threadsMetadata slw)) <= 1000000 ->
  aggRuntimeOf order = sumZ (runtimesAlong (map_to_list (threadsMetadata slw))).
Proof.
  intros Hord Hsize. rewrite aggRuntimeOf_sum.
  rewrite (sumZ_perm _ _ (runtimesAlong_perm _ _ Hord)).
  apply wrap64_small.
  pose proof (sumZ_runtimes_bound (map_to_list (threadsMetadata slw))) as Hb.
  rewrite length_map_to_list in Hb. lia.
Qed.

Lemma aggRuntimeOf_no_overflow_witness :
  aggRuntimeOf (canonicalOrder unendedTracker)
  = sumZ (runtimesAlong (map_to_list (threadsMetadata unendedTracker))).
Proof.
  apply (aggRuntimeOf_no_overflow unendedTracker (canonicalOrder unendedTracker)).
  - unfold ranges, canonicalOrder. reflexivity.
  - apply Z.leb_le. vm_compute. reflexivity.
Defined.

(** X15. For a tracker without threads, [GetAvgStdThreadRuntime]
    divides zero by zero: it returns no error, and both the mean and
    the standard deviation are NaN. *)
Theorem GetAvgStdThreadRuntime_empty
    (slw : SyncLogWriter) (order1 order2 : list (string * threadFileMetadata)) :
  threadsMetadata slw = ∅ ->
  ranges (threadsMetadata slw) order1 ->
  ranges (threadsMetadata slw) order2 ->
  GetAvgStdThreadRuntime slw order1 order2 = (PrimFloat.nan, PrimFloat.nan).
Proof.
  intros Hempty H1 H2. unfold ranges in H1, H2.
  rewrite Hempty, map_to_list_empty in H1, H2.
  apply Permutation_nil_r in H1, H2. subst order1 order2.
  rewrite binary64_stats, Hempty. vm_compute. reflexivity.
Qed.

Lemma GetAvgStdThreadRuntime_empty_witness :
  GetAvgStdThreadRuntime NewLogWriter [] [] = (PrimFloat.nan, PrimFloat.nan).
Proof.
  apply (GetAvgStdThreadRuntime_empty NewLogWriter [] []).
  - reflexivity.
  - unfold ranges. reflexivity.
  - unfold ranges. reflexivity.
Defined.

(** ** Reading the raw logs *)

Lemma WriteAll_app recs1 recs2 st :
  WriteAll (recs1 ++ recs2)%list st = WriteAll recs2 (WriteAll recs1 st).
Proof. unfold WriteAll. apply foldl_app. Qed.

Lemma WriteAll_errors_app recs1 recs2 : ∀ st,
  WriteAll_errors (recs1 ++ recs2)%list st
  = (WriteAll_errors recs1 st ++ WriteAll_errors recs2 (WriteAll recs1 st))%list.
Proof.
  induction recs1 as [|ll recs1 IH]; intros st; [reflexivity|].
  cbn [app WriteAll_errors]. rewrite WriteAll_cons. by rewrite IH.
Qed.

(** [Write] does not touch the raw input. *)
Lemma Write_input ll st :
  input_dir (fst (Write ll st)).2 = input_dir st.2
  ∧ raw_files (fst (Write ll st)).2 = raw_files st.2.
Proof.
  destruct st as [slw w].
  assert (∀ thState slw0 w0,
            input_dir (fst (writeLogLine ll thState (slw0, w0))).2 = input_dir w0
            ∧ raw_files (fst (writeLogLine ll thState (slw0, w0))).2 = raw_files w0) as Hwrite.
  { intros thState slw0 w0. unfold writeLogLine, File_Write.
    destruct (logFd thState) as [path|]; [|done].
    destruct (decide (path ∈ write_denied w0)); [done|].
    by destruct (string_eqb (Message ll) threadLogsEndMarker). }
  unfold Write. cbn [fst snd].
  destruct (threadsMetadata slw !! ThreadId ll) as [thState|]; [apply Hwrite|].
  unfold initialize. destruct (negb _); [done|].
  unfold os_OpenFile.
  destruct (decide (threadLogFilePath ll ∈ open_denied w)); [done|].
  destruct (files w !! threadLogFilePath ll); [apply Hwrite|].
  match goal with
  | |- context [writeLogLine ll ?thState (?slw0, ?w0)] =>
      destruct (Hwrite thState slw0 w0) as [-> ->]
  end.
  done.
Qed.

Lemma WriteAll_input recs : ∀ st,
  input_dir (WriteAll recs st).2 = input_dir st.2
  ∧ raw_files (WriteAll recs st).2 = raw_files st.2.
Proof.
  induction recs as [|ll recs IH]; intros st; [done|].
  rewrite WriteAll_cons. destruct (IH (fst (Write ll st))) as [-> ->]. apply Write_input.
Qed.

(** The loop over the lines of a file whose records are all accepted
    is the tracker fed with these records. *)
Lemma convertLines_WriteAll lines recs : ∀ st,
  parsesTo lines recs ->
  Forall (fun e => e = None) (WriteAll_errors recs st) ->
  convertLines lines st = (WriteAll recs st, None).
Proof.
  intros st Hparse. revert st.
  induction Hparse as [|lineText ll lines recs Hll _ IH]; intros st Herrs; [done|].
  cbn [WriteAll_errors] in Herrs. apply Forall_cons in Herrs as [Herr Herrs].
  cbn [convertLines]. rewrite Hll, WriteAll_cons.
  destruct (Write ll st) as [st' err]. cbn [fst snd] in *. subst err. by apply IH.
Qed.

(** X16. Whatever [convertProcessLogFile] returns, it leaves the
    tracker as the records of the first lines of the file leave it,
    written in their order: it stops at the first line that fails, and
    when it returns no error these are all the lines, each record was
    accepted, and the scanner ended without an error. *)
Theorem convertProcessLogFile_prefix (logfileName : string) (fd : RawFile) (st : State) :
  raw_files st.2 !! logfileName = Some fd ->
  ∃ recs,
    parsesTo (take (length recs) (raw_lines fd)) recs
    ∧ fst (convertProcessLogFile logfileName st) = WriteAll recs st
    ∧ (snd (convertProcessLogFile logfileName st) = None ->
       length recs = length (raw_lines fd)
       ∧ Forall (fun e => e = None) (WriteAll_errors recs st)
       ∧ raw_scan_err fd = None).
Proof.
  intros Hfd. unfold convertProcessLogFile. rewrite Hfd.
  assert (∀ lines st0, ∃ recs,
            parsesTo (take (length recs) lines) recs
            ∧ fst (convertLines lines st0) = WriteAll recs st0
            ∧ (snd (convertLines lines st0) = None ->
               length recs = length lines
               ∧ Forall (fun e => e = None) (WriteAll_errors recs st0))) as Hloop.
  { induction lines as [|lineText lines IH]; intros st0.
    { exists []. split; [constructor|]. split; [done|]. intros _. split; [done|constructor]. }
    cbn [convertLines]. destruct (ParseLogline lineText) as [ll|err] eqn:Hll.
    2:{ exists []. split; [constructor|]. split; [done|]. discriminate. }
    destruct (Write ll st0) as [st1 [err|]] eqn:Hw.
    { exists [ll]. split; [by repeat constructor|].
      split; [by rewrite WriteAll_cons, Hw|]. discriminate. }
    destruct (IH st1) as (recs & Hparse & Hst & Hnone). exists (ll :: recs).
    split; [by constructor|]. split; [by rewrite WriteAll_cons, Hw|].
    intros Hok. destruct (Hnone Hok) as [Hlen Herrs].
    split; [cbn [length]; by rewrite Hlen|].
    cbn [WriteAll_errors]. rewrite Hw. by constructor. }
  destruct (Hloop (raw_lines fd) st) as (recs & Hparse & Hst & Hnone).
  exists recs. split; [done|].
  destruct (convertLines (raw_lines fd) st) as [st' [err|]]; cbn [fst snd] in *.
  - split; [done|]. discriminate.
  - split; [done|]. intros Hscan. destruct (Hnone eq_refl) as [Hlen Herrs]. auto.
Qed.

Lemma convertProcessLogFile_prefix_witness :
  ∃ recs,
    parsesTo (take (length recs) [sampleLine; "this is not a log line"; sampleLine]) recs
    ∧ fst (convertProcessLogFile "rawlogs/app.log"
             (NewLogWriter,
              {| files := ∅; open_denied := ∅; write_denied := ∅; input_dir := Ok ["app.log"];
                 raw_files :=
                   <["rawlogs/app.log" :=
                       {| raw_lines := [sampleLine; "this is not a log line"; sampleLine];
                          raw_scan_err := None |}]> ∅ |}))
      = WriteAll recs
          (NewLogWriter,
           {| files := ∅; open_denied := ∅; write_denied := ∅; input_dir := Ok ["app.log"];
              raw_files :=
                <["rawlogs/app.log" :=
                    {| raw_lines := [sampleLine; "this is not a log line"; sampleLine];
                       raw_scan_err := None |}]> ∅ |}).
Proof.
  destruct (convertProcessLogFile_prefix "rawlogs/app.log"
              {| raw_lines := [sampleLine; "this is not a log line"; sampleLine];
                 raw_scan_err := None |}
              (NewLogWriter,
               {| files := ∅; open_denied := ∅; write_denied := ∅; input_dir := Ok ["app.log"];
                  raw_files :=
                    <["rawlogs/app.log" :=
                        {| raw_lines := [sampleLine; "this is not a log line"; sampleLine];
                           raw_scan_err := None |}]> ∅ |}))
    as (recs & Hparse & Hst & _).
  - reflexivity.
  - exists recs. split; [exact Hparse|exact Hst].
Defined.

(** The loop of [ProcessRawLogFiles] over files whose records are all
    accepted is the tracker fed with the records of the files, one
    file after the other. *)
Lemma ProcessRawLogFiles_loop entries recss : ∀ st,
  holds st.2 entries recss ->
  Forall (fun e => e = None) (WriteAll_errors (concat recss) st) ->
  foldl (fun st dirEntry =>
           fst (convertProcessLogFile (filepath_Join InputLogsDirPath dirEntry) st))
        st entries
  = WriteAll (concat recss) st.
Proof.
  intros st Hholds. remember (st.2) as w eqn:Hw.
  assert (raw_files st.2 = raw_files w) as Hraw by (by subst w). clear Hw.
  revert st Hraw.
  induction Hholds as [|entry recs entries recss (fd & Hfd & Hparse) _ IH];
    intros st Hraw Herrs; [done|].
  cbn [concat foldl] in *. rewrite WriteAll_errors_app in Herrs.
  apply Forall_app in Herrs as [Herrs1 Herrs2].
  rewrite WriteAll_app.
  assert (fst (convertProcessLogFile (filepath_Join InputLogsDirPath entry) st)
          = WriteAll recs st) as ->.
  { unfold convertProcessLogFile. rewrite Hraw, Hfd.
    by rewrite (convertLines_WriteAll _ _ st Hparse Herrs1). }
  apply IH; [|done]. destruct (WriteAll_input recs st) as [_ ->]. exact Hraw.
Qed.

(** X17. The whole program on a well-formed input. The files of the
    input directory hold, taken one after the other in the order of
    the directory, a stream in which each thread begins with its start
    marker and has no record after its end marker, different threads
    have different files, none of these files exists yet and the
    operating system fails no call. Then [ProcessRawLogFiles], run on an
    empty tracker, leaves it as these records leave it, written in that
    order, and the file of each thread holds the lines of the records
    of that thread, in their order. How a scanner ended plays no part. *)
Theorem ProcessRawLogFiles_demultiplexes
    (w : World) (entries : list string) (recss : list (list LogLine)) :
  input_dir w = Ok entries ->
  holds w entries recss ->
  firstIsStart (concat recss) ->
  noneAfterEnd (concat recss) ->
  distinctFiles (concat recss) ->
  freshWorld w (concat recss) ->
  ProcessRawLogFiles (NewLogWriter, w) = (WriteAll (concat recss) (NewLogWriter, w), None)
  ∧ (∀ k, is_Some (threadsMetadata (fst (ProcessRawLogFiles (NewLogWriter, w))).1 !! k)
          ↔ ∃ ll, ll ∈ concat recss ∧ ThreadId ll = k)
  ∧ (∀ k md,
       threadsMetadata (fst (ProcessRawLogFiles (NewLogWriter, w))).1 !! k = Some md ->
       files (fst (ProcessRawLogFiles (NewLogWriter, w))).2 !! logFilepath md
       = Some (rendered (recordsOf k (concat recss)))).
Proof.
  intros Hdir Hholds Hfirst Hlast Hdist (Hod & Hwd & Hfresh).
  destruct (WriteAll_demux (concat recss) (NewLogWriter, w) ∅ ∅) as (Herrs & Hdom & Hstore).
  - by apply tracks_empty.
  - apply followsProtocol_iff. by split.
  - exact Hdist.
  - intros ll k md _. cbn [fst NewLogWriter threadsMetadata]. by rewrite lookup_empty.
  - intros ll Hin _. by apply Hfresh.
  - assert (ProcessRawLogFiles (NewLogWriter, w)
            = (WriteAll (concat recss) (NewLogWriter, w), None)) as Hrun.
    { unfold ProcessRawLogFiles. cbn [snd]. rewrite Hdir.
      by rewrite (ProcessRawLogFiles_loop entries recss (NewLogWriter, w)). }
    rewrite Hrun. cbn [fst]. split; [done|]. split.
    + intros k. rewrite Hdom. split; [|by right].
      intros [Hin|Hex]; [by apply not_elem_of_empty in Hin|done].
    + intros k md Hk. by rewrite (Hstore k md Hk).
Qed.

Lemma ProcessRawLogFiles_demultiplexes_witness :
  ProcessRawLogFiles (NewLogWriter, splitInputWorld)
  = (WriteAll interleavedLog (NewLogWriter, splitInputWorld), None)
  ∧ files (fst (ProcessRawLogFiles (NewLogWriter, splitInputWorld))).2
      !! "mergedlogs/p1-t2.log"
    = Some (rendered [ markerRecord "t2" 1 threadLogsStartMarker;
                       markerRecord "t2" 3 "two";
                       markerRecord "t2" 5 "three" ]).
Proof.
  destruct (ProcessRawLogFiles_demultiplexes splitInputWorld ["a.log"; "b.log"]
              [ [ markerRecord "t1" 0 threadLogsStartMarker;
                  markerRecord "t2" 1 threadLogsStartMarker;
                  markerRecord "t1" 2 "one" ];
                [ markerRecord "t2" 3 "two";
                  markerRecord "t1" 4 threadLogsEndMarker;
                  markerRecord "t2" 5 "three" ] ])
    as (Hrun & _ & Hstore).
  - reflexivity.
  - constructor.
    { eexists. split; [reflexivity|]. repeat constructor; vm_compute; reflexivity. }
    constructor; [|constructor].
    eexists. split; [reflexivity|]. repeat constructor; vm_compute; reflexivity.
  - apply followsProtocol_iff. vm_compute. reflexivity.
  - apply followsProtocol_iff. vm_compute. reflexivity.
  - apply interleavedLog_distinctFiles.
  - split; [reflexivity|]. split; [reflexivity|]. intros ll _. apply lookup_empty.
  - split; [exact Hrun|].
    apply (Hstore "t2" {| processId := "p1"; logsStartTimestamp := atSecond 1;
                          logsEndTimestamp := time.zero;
                          logFd := Some "mergedlogs/p1-t2.log";
                          logFilepath := "mergedlogs/p1-t2.log" |}).
    vm_compute. reflexivity.
Defined.




(** ** The parser: the lines it accepts *)

Lemma string_has_app c a b : string_has c (a +:+ b) = string_has c a || string_has c b.
Proof.
  induction a as [|x a IH]; [reflexivity|].
  rewrite append_cons. cbn [string_has]. by rewrite IH, orb_assoc.
Qed.

(** A text in which the first byte of the separator does not occur is
    what [strings.Cut] finds before the separator. *)
Lemma strings_Cut_fresh c sep a b :
  string_has c a = false ->
  strings_Cut (String c sep) (a +:+ String c sep +:+ b) = Some (a, b).
Proof.
  induction a as [|x a IH]; intros Hno.
  - rewrite append_nil_l, strings_Cut_unfold, prefix_append.
    by rewrite string_drop_append.
  - cbn [string_has] in Hno. apply orb_false_iff in Hno as [Hx Hno].
    rewrite append_cons, strings_Cut_unfold. cbn [String.prefix].
    destruct (ascii_dec c x) as [->|_]; [by rewrite Ascii.eqb_refl in Hx|].
    by rewrite (IH Hno).
Qed.

Lemma strings_Split1_fresh c : ∀ y, string_has c y = false -> strings_Split1 y c = [y].
Proof.
  induction y as [|a y IH]; intros Hno; [reflexivity|].
  cbn [string_has] in Hno. apply orb_false_iff in Hno as [Ha Hno].
  cbn [strings_Split1]. by rewrite Ha, (IH Hno).
Qed.

Lemma strings_Split1_pair c : ∀ x y,
  string_has c x = false -> string_has c y = false ->
  strings_Split1 (x +:+ String c y) c = [x; y].
Proof.
  induction x as [|a x IH]; intros y Hx Hy.
  - rewrite append_nil_l. cbn [strings_Split1]. by rewrite Ascii.eqb_refl, strings_Split1_fresh.
  - cbn [string_has] in Hx. apply orb_false_iff in Hx as [Ha Hx].
    rewrite append_cons. cbn [strings_Split1]. by rewrite Ha, (IH y Hx Hy).
Qed.

(** The first ["::"] of a line is the one after the thread id. *)
Lemma strings_Cut_ids : ∀ pid thid rest,
  string_has ":" pid = false -> string_has ":" thid = false -> thid ≠ "" ->
  strings_Cut "::" (pid +:+ ":" +:+ thid +:+ "::" +:+ rest)
  = Some (pid +:+ ":" +:+ thid, rest).
Proof.
  induction pid as [|x pid IH]; intros thid rest Hpid Hthid Hne.
  - rewrite !append_nil_l. destruct thid as [|t thid]; [done|].
    pose proof Hthid as Ht. cbn [string_has] in Ht. apply orb_false_iff in Ht as [Ht _].
    change (":" +:+ String t thid +:+ "::" +:+ rest)
      with (String ":" (String t thid +:+ "::" +:+ rest)).
    rewrite strings_Cut_unfold. rewrite append_cons at 1. cbn [String.prefix].
    destruct (ascii_dec ":" ":") as [_|Hc]; [|done].
    destruct (ascii_dec ":" t) as [<-|_]; [by rewrite Ascii.eqb_refl in Ht|].
    by rewrite (strings_Cut_fresh ":" ":" (String t thid) rest Hthid).
  - cbn [string_has] in Hpid. apply orb_false_iff in Hpid as [Hx Hpid].
    change (String x pid +:+ ":" +:+ thid +:+ "::" +:+ rest)
      with (String x (pid +:+ ":" +:+ thid +:+ "::" +:+ rest)).
    change (String x pid +:+ ":" +:+ thid) with (String x (pid +:+ ":" +:+ thid)).
    rewrite strings_Cut_unfold. cbn [String.prefix].
    destruct (ascii_dec ":" x) as [<-|_]; [by rewrite Ascii.eqb_refl in Hx|].
    by rewrite (IH thid rest Hpid Hthid Hne).
Qed.

(** Where no minus sign follows a space, the first [" - "] is the one
    that is appended. *)
Lemma strings_Cut_dash msg : ∀ s,
  strings_Cut " -" s = None ->
  strings_Cut " - " (s +:+ " - " +:+ msg) = Some (s, msg).
Proof.
  induction s as [|c s IH]; intros Hno.
  - rewrite append_nil_l, strings_Cut_unfold, prefix_append. by rewrite string_drop_append.
  - rewrite strings_Cut_unfold in Hno.
    destruct (String.prefix " -" (String c s)) eqn:Hp; [discriminate|].
    destruct (strings_Cut " -" s) as [[? ?]|] eqn:Hs; [discriminate|].
    rewrite append_cons, strings_Cut_unfold.
    assert (String.prefix " - " (String c (s +:+ " - " +:+ msg)) = false) as ->.
    { cbn [String.prefix] in *. destruct (ascii_dec " " c) as [_|_]; [|done].
      destruct s as [|d s]; [reflexivity|]. rewrite append_cons.
      cbn [String.prefix] in *.
      destruct (ascii_dec "-" d) as [_|_]; [|done]. by rewrite prefix_nil in Hp. }
    by rewrite (IH eq_refl).
Qed.

Lemma strings_Cut_space_dash_app a b :
  string_has " " a = false -> strings_Cut " -" b = None -> strings_Cut " -" (a +:+ b) = None.
Proof.
  induction a as [|x a IH]; intros Ha Hb; [done|].
  cbn [string_has] in Ha. apply orb_false_iff in Ha as [Hx Ha].
  rewrite append_cons, strings_Cut_unfold. cbn [String.prefix].
  destruct (ascii_dec " " x) as [<-|_]; [by rewrite Ascii.eqb_refl in Hx|].
  by rewrite (IH Ha Hb).
Qed.

(** *** The texts that [time.Parse] reads *)

Lemma isDigitChar_plain c :
  time.isDigitChar c = true -> Ascii.eqb c " " = false ∧ Ascii.eqb c "-" = false.
Proof.
  destruct c as [[] [] [] [] [] [] [] []]; vm_compute; intros Hd;
    (discriminate Hd || (split; reflexivity)).
Qed.

Lemma cutspace_unfold c s :
  time.cutspace (String c s) = if Ascii.eqb c " " then time.cutspace s else String c s.
Proof. destruct c as [[] [] [] [] [] [] [] []]; reflexivity. Qed.

Lemma leadingInt_all : ∀ s acc q,
  time.leadingInt acc s = (q, "") -> string_has " " s = false.
Proof.
  induction s as [|c s IH]; intros acc q; [done|].
  cbn [time.leadingInt string_has]. destruct (time.isDigitChar c) eqn:Hd; [|discriminate].
  intros Hl. destruct (isDigitChar_plain c Hd) as [-> _]. by apply (IH _ _ Hl).
Qed.

Lemma atoi_no_space s y : time.atoi s = Some y -> string_has " " s = false.
Proof.
  destruct s as [|c s]; [done|].
  assert (∀ acc q, time.leadingInt acc (String " " s) = (q, "") -> False) as Hsp
      by (intros acc q; cbn [time.leadingInt]; vm_compute (time.isDigitChar " "); discriminate).
  unfold time.atoi.
  destruct c as [[] [] [] [] [] [] [] []];
    cbv iota beta;
    try (destruct (time.leadingInt 0 (String _ s)) as [q [|? ?]] eqn:Hl; [|discriminate];
         intros _; exact (leadingInt_all _ _ _ Hl));
    try (destruct (time.leadingInt 0 s) as [q [|? ?]] eqn:Hl; [|discriminate];
         intros _; cbn [string_has]; exact (leadingInt_all _ _ _ Hl)).
Qed.

Lemma getnum_inv v fixed n v' :
  time.getnum v fixed = Some (n, v') ->
  ∃ d, v = d +:+ v' ∧ string_has " " d = false
       ∧ ∃ c r, v = String c r ∧ Ascii.eqb c "-" = false.
Proof.
  unfold time.getnum. destruct (time.isDigit0 v) eqn:H0; [|discriminate]. cbn [negb].
  destruct v as [|a r]; [discriminate|]. cbn [time.isDigit0] in H0.
  destruct (isDigitChar_plain a H0) as [Ha Ha'].
  destruct (time.isDigit1 (String a r)) eqn:H1; cbn [negb].
  - destruct r as [|b r]; [discriminate|]. cbn [time.isDigit1] in H1.
    destruct (isDigitChar_plain b H1) as [Hb _].
    intros [= <- <-]. exists (String a (String b "")). split; [reflexivity|].
    split; [cbn [string_has]; by rewrite Ha, Hb|]. by exists a, (String b r).
  - destruct fixed; [discriminate|]. intros [= <- <-].
    exists (String a ""). split; [reflexivity|].
    split; [cbn [string_has]; by rewrite Ha|]. by exists a, r.
Qed.

Lemma skip_byte v c v' :
  Ascii.eqb c " " = false ->
  time.skip v (String c "") = Some v' -> v = String c v'.
Proof.
  intros Hc. unfold time.skip.
  assert (time.skip_go false v (String c "")
          = match v with
            | String x value' => if Ascii.eqb x c then Some value' else None
            | EmptyString => None
            end) as ->.
  { destruct c as [[] [] [] [] [] [] [] []]; try discriminate Hc; by destruct v. }
  destruct v as [|x v]; [discriminate|].
  destruct (Ascii.eqb x c) eqn:Hx; [|discriminate]. apply Ascii.eqb_eq in Hx as ->.
  by intros [= ->].
Qed.

(** A run of spaces before a text that begins with a digit. *)
Lemma cutspace_no_space_dash : ∀ v,
  time.isDigit0 (time.cutspace v) = true ->
  strings_Cut " -" (time.cutspace v) = None ->
  strings_Cut " -" v = None.
Proof.
  induction v as [|c v IH]; [done|]. rewrite cutspace_unfold.
  destruct (Ascii.eqb c " ") eqn:Hc; [|done]. apply Ascii.eqb_eq in Hc as ->.
  intros Hd Hno. rewrite strings_Cut_unfold, (IH Hd Hno). cbn [String.prefix].
  destruct (ascii_dec " " " ") as [_|Hne]; [|done].
  destruct v as [|d v]; [done|]. cbn [String.prefix].
  destruct (ascii_dec "-" d) as [<-|_]; [|done].
  rewrite cutspace_unfold in Hd. discriminate Hd.
Qed.

Lemma skip_space v v' :
  time.skip v " " = Some v' -> v' = time.cutspace v.
Proof.
  unfold time.skip. cbn [time.skip_go]. destruct v as [|x v]; [by intros [= <-]|].
  destruct (Ascii.eqb x " "); [|discriminate]. by intros [= <-].
Qed.

Lemma string_take_drop : ∀ n s, s = time.string_take n s +:+ string_drop n s.
Proof.
  unfold time.string_take.
  induction n as [|n IH]; intros s.
  - by destruct s.
  - destruct s as [|c s]; [reflexivity|].
    cbn [String.substring string_drop]. rewrite append_cons. f_equal. apply IH.
Qed.

Lemma parseNanoseconds4_no_space v ns :
  time.parseNanoseconds4 v = Some ns ->
  (String.length v <? 4)%nat = false ->
  (String.length (string_drop 4 v) =? 0)%nat = true ->
  string_has " " v = false.
Proof.
  intros Hp Hlen Hend.
  destruct v as [|c [|x [|y [|z [|? ?]]]]]; try discriminate.
  unfold time.parseNanoseconds4 in Hp.
  destruct (Ascii.eqb c "." || Ascii.eqb c ",") eqn:Hc; [|discriminate].
  destruct (time.atoi (time.string_take 3 (String x (String y (String z ""))))) as [q|] eqn:Ha;
    [|discriminate].
  apply atoi_no_space in Ha.
  change (time.string_take 3 (String x (String y (String z ""))))
    with (String x (String y (String z ""))) in Ha.
  cbn [string_has] in *. rewrite Ha, orb_false_r.
  apply orb_true_iff in Hc as [Hc|Hc]; apply Ascii.eqb_eq in Hc; by subst c.
Qed.

(** In a text that [time.Parse] reads, no minus sign follows a space,
    and the text does not begin with one. *)
Lemma Parse_no_space_dash stamp ts :
  time.Parse stamp = Some ts -> strings_Cut " -" (" " +:+ stamp) = None.
Proof.
  unfold time.Parse.
  destruct ((4 <=? String.length stamp)%nat && time.isDigit0 stamp) eqn:H0;
    [|discriminate]. cbn [negb].
  apply andb_true_iff in H0 as [_ Hd0].
  destruct (time.atoi (time.string_take 4 stamp)) as [year|] eqn:Hy; [|discriminate].
  destruct (time.skip (string_drop 4 stamp) "-") as [v1|] eqn:H1; [|discriminate].
  destruct (time.getnum v1 true) as [[month v2]|] eqn:H2; [|discriminate].
  destruct (negb (time.in_range 1 month 13)); [discriminate|].
  destruct (time.skip v2 "-") as [v3|] eqn:H3; [|discriminate].
  destruct (time.getnum v3 true) as [[day v4]|] eqn:H4; [|discriminate].
  destruct (time.skip v4 " ") as [v5|] eqn:H5; [|discriminate].
  destruct (time.getnum v5 false) as [[hour v6]|] eqn:H6; [|discriminate].
  destruct (negb (time.in_range 0 hour 24)); [discriminate|].
  destruct (time.skip v6 ":") as [v7|] eqn:H7; [|discriminate].
  destruct (time.getnum v7 true) as [[min v8]|] eqn:H8; [|discriminate].
  destruct (negb (time.in_range 0 min 60)); [discriminate|].
  destruct (time.skip v8 ":") as [v9|] eqn:H9; [|discriminate].
  destruct (time.getnum v9 true) as [[sec v10]|] eqn:H10; [|discriminate].
  destruct (negb (time.in_range 0 sec 60)); [discriminate|].
  destruct (String.length v10 <? 4)%nat eqn:Hlen; [discriminate|].
  destruct (time.parseNanoseconds4 v10) as [nsec|] eqn:H11; [|discriminate].
  destruct (negb (String.length (string_drop 4 v10) =? 0)%nat) eqn:Hend; [discriminate|].
  intros _. apply negb_false_iff in Hend.
  apply atoi_no_space in Hy.
  apply skip_byte in H1, H3, H7, H9; try reflexivity.
  apply skip_space in H5.
  apply getnum_inv in H2 as (d2 & E2 & N2 & _), H4 as (d4 & E4 & N4 & _),
    H8 as (d8 & E8 & N8 & _), H10 as (d10 & E10 & N10 & _).
  pose proof H6 as H6'. apply getnum_inv in H6' as (d6 & E6 & N6 & _).
  assert (time.isDigit0 v5 = true) as Hd5.
  { unfold time.getnum in H6. by destruct (time.isDigit0 v5). }
  pose proof (parseNanoseconds4_no_space _ _ H11 Hlen Hend) as N11.
  assert (strings_Cut " -" v5 = None) as C5.
  { rewrite E6. apply strings_Cut_space_dash_app; [done|]. rewrite H7.
    apply (strings_Cut_space_dash_app ":"); [done|]. rewrite E8.
    apply strings_Cut_space_dash_app; [done|]. rewrite H9.
    apply (strings_Cut_space_dash_app ":"); [done|]. rewrite E10.
    apply strings_Cut_space_dash_app; [done|].
    rewrite <- (append_nil_r v10). by apply strings_Cut_space_dash_app. }
  assert (strings_Cut " -" v4 = None) as C4.
  { subst v5. by apply cutspace_no_space_dash. }
  assert (strings_Cut " -" stamp = None) as C0.
  { rewrite (string_take_drop 4 stamp). apply strings_Cut_space_dash_app; [done|].
    rewrite H1. apply (strings_Cut_space_dash_app "-"); [done|]. rewrite E2.
    apply strings_Cut_space_dash_app; [done|]. rewrite H3.
    apply (strings_Cut_space_dash_app "-"); [done|]. rewrite E4.
    by apply strings_Cut_space_dash_app. }
  destruct stamp as [|c stamp]; [discriminate|]. cbn [time.isDigit0] in Hd0.
  destruct (isDigitChar_plain c Hd0) as [_ Hc].
  change (" " +:+ String c stamp) with (String " " (String c stamp)).
  rewrite strings_Cut_unfold, C0. cbn [String.prefix].
  destruct (ascii_dec " " " ") as [_|Hne]; [|done].
  destruct (ascii_dec "-" c) as [<-|_]; [|done]. discriminate Hc.
Qed.

(** X19. The parser accepts the lines of the grammar of the input: a
    line made of a process id and a thread id without a colon, the
    thread id not empty, a thread name without a space, a timestamp
    that [time.Parse] reads, and any message, is accepted, and the
    record has these five fields, the message as it is. *)
Theorem ParseLogline_complete (pid thid thName stamp msg : string) (ts : time.Time) :
  string_has ":" pid = false ->
  string_has ":" thid = false ->
  thid ≠ "" ->
  string_has " " thName = false ->
  time.Parse stamp = Some ts ->
  ParseLogline (composeLine pid thid thName stamp msg)
  = Ok {| processID := pid; threadID := thid; threadName := thName;
          timestamp := ts; message := msg |}.
Proof.
  intros Hpid Hthid Hne Hname Hts.
  unfold ParseLogline, strings_SplitN2, composeLine.
  rewrite (strings_Cut_ids pid thid _ Hpid Hthid Hne).
  change (":" +:+ thid) with (String ":" thid).
  rewrite (strings_Split1_pair ":" pid thid Hpid Hthid).
  assert (thName +:+ " " +:+ stamp +:+ " - " +:+ msg
          = (thName +:+ " " +:+ stamp) +:+ " - " +:+ msg) as ->
      by (by rewrite !append_assoc).
  rewrite strings_Cut_dash.
  2:{ apply strings_Cut_space_dash_app; [done|]. by apply (Parse_no_space_dash stamp ts). }
  rewrite (strings_Cut_fresh " " "" thName stamp Hname).
  by rewrite Hts.
Qed.

Lemma ParseLogline_complete_witness :
  ParseLogline (composeLine "p1" "t1" "worker" "2020-08-09 18:59:25,200" "a - b :: c")
  = Ok {| processID := "p1"; threadID := "t1"; threadName := "worker";
          timestamp := 63732596365200000000; message := "a - b :: c" |}.
Proof.
  apply (ParseLogline_complete "p1" "t1" "worker" "2020-08-09 18:59:25,200" "a - b :: c").
  - reflexivity.
  - reflexivity.
  - discriminate.
  - reflexivity.
  - vm_compute. reflexivity.
Defined.

(** ** The files of the threads *)

Lemma strings_Split1_cons c x rest :
  string_has c x = false ->
  strings_Split1 (x +:+ String c rest) c = x :: strings_Split1 rest c.
Proof.
  induction x as [|a x IH]; intros Hx.
  - rewrite append_nil_l. cbn [strings_Split1]. by rewrite Ascii.eqb_refl.
  - cbn [string_has] in Hx. apply orb_false_iff in Hx as [Ha Hx].
    rewrite append_cons. cbn [strings_Split1]. by rewrite Ha, (IH Hx).
Qed.

(** Joining the directory of the merged logs and a plain file name. *)
Lemma filepath_Join_plain name :
  string_has "/" name = false -> string_has "-" name = true ->
  filepath_Join mergeLogFilePath name = "mergedlogs/" +:+ name.
Proof.
  intros Hslash Hdash.
  assert (∀ s, string_has "-" s = false -> string_eqb name s = false) as Hne.
  { intros s Hs. apply string_eqb_false. intros ->. congruence. }
  unfold filepath_Join, mergeLogFilePath.
  change (string_eqb "./mergedlogs" "") with false. cbv iota.
  unfold filepath_Clean.
  change ("./mergedlogs" +:+ "/" +:+ name) with ("." +:+ String "/" ("mergedlogs" +:+ String "/" name)).
  rewrite (strings_Split1_cons "/" "."), (strings_Split1_cons "/" "mergedlogs") by reflexivity.
  rewrite (strings_Split1_fresh "/" name Hslash).
  change (String.prefix "/" ("." +:+ String "/" ("mergedlogs" +:+ String "/" name))) with false.
  cbv iota zeta. cbn [clean_go].
  change (string_eqb "." "") with false. change (string_eqb "." ".") with true.
  change (string_eqb "mergedlogs" "") with false.
  change (string_eqb "mergedlogs" ".") with false.
  change (string_eqb "mergedlogs" "..") with false.
  cbn [orb]. rewrite !Hne by reflexivity. cbn [orb rev app join_slash]. reflexivity.
Qed.

Lemma length_append (a b : string) :
  String.length (a +:+ b) = (String.length a + String.length b)%nat.
Proof. induction a as [|x a IH]; [reflexivity|]. rewrite append_cons. cbn. by rewrite IH. Qed.

Lemma append_inj_r (a b s : string) : a +:+ s = b +:+ s -> a = b.
Proof.
  revert b. induction a as [|x a IH]; intros [|y b] Heq.
  - done.
  - apply (f_equal String.length) in Heq. rewrite append_nil_l, length_append in Heq.
    cbn in Heq. lia.
  - apply (f_equal String.length) in Heq. rewrite append_nil_l, length_append in Heq.
    cbn in Heq. lia.
  - rewrite !append_cons in Heq. injection Heq as -> Heq. f_equal. by apply IH.
Qed.

Lemma append_inj_l (p a b : string) : p +:+ a = p +:+ b -> a = b.
Proof.
  induction p as [|x p IH]; [done|]. rewrite !append_cons. intros [= Heq]. by apply IH.
Qed.

(** The name of the file of a thread holds a minus sign, and no slash
    unless an id has one. *)
Lemma file_name_plain pid thid :
  string_has "/" pid = false -> string_has "/" thid = false ->
  string_has "/" (pid +:+ "-" +:+ thid +:+ ".log") = false
  ∧ string_has "-" (pid +:+ "-" +:+ thid +:+ ".log") = true.
Proof.
  intros Hp Ht. split.
  - rewrite !string_has_app, Hp, Ht. reflexivity.
  - rewrite !string_has_app. cbn [string_has]. rewrite Ascii.eqb_refl.
    by rewrite orb_true_r.
Qed.

(** X20. For a record whose process id and thread id hold no slash,
    the file of the thread is [mergedlogs/<pid>-<thid>.log]: the
    directory is the one of the merged logs, whatever the ids. *)
Theorem threadLogFilePath_plain (ll : LogLine) :
  string_has "/" (ProcessID ll) = false ->
  string_has "/" (ThreadId ll) = false ->
  threadLogFilePath ll = "mergedlogs/" +:+ ProcessID ll +:+ "-" +:+ ThreadId ll +:+ ".log".
Proof.
  intros Hp Ht. unfold threadLogFilePath, mergeLogFileExtension.
  change ("." +:+ "log") with ".log".
  destruct (file_name_plain (ProcessID ll) (ThreadId ll) Hp Ht) as [Hslash Hdash].
  by apply filepath_Join_plain.
Qed.

Lemma threadLogFilePath_plain_witness :
  threadLogFilePath sampleRecord
  = "mergedlogs/" +:+ ProcessID sampleRecord +:+ "-" +:+ ThreadId sampleRecord +:+ ".log".
Proof.
  apply (threadLogFilePath_plain sampleRecord); reflexivity.
Defined.

(** X21. Two threads of one process are given different files, when
    the ids hold no slash: records of the same process that are given
    the same file are of the same thread. *)
Theorem threadLogFilePath_same_process (l1 l2 : LogLine) :
  string_has "/" (ProcessID l1) = false ->
  string_has "/" (ThreadId l1) = false ->
  string_has "/" (ThreadId l2) = false ->
  ProcessID l1 = ProcessID l2 ->
  threadLogFilePath l1 = threadLogFilePath l2 ->
  ThreadId l1 = ThreadId l2.
Proof.
  intros Hp1 Ht1 Ht2 Hpid.
  assert (string_has "/" (ProcessID l2) = false) as Hp2 by (by rewrite <- Hpid).
  destruct (file_name_plain (ProcessID l1) (ThreadId l1) Hp1 Ht1) as [Hs1 Hd1].
  destruct (file_name_plain (ProcessID l2) (ThreadId l2) Hp2 Ht2) as [Hs2 Hd2].
  unfold threadLogFilePath, mergeLogFileExtension.
  change ("." +:+ "log") with ".log".
  rewrite (filepath_Join_plain _ Hs1 Hd1), (filepath_Join_plain _ Hs2 Hd2), Hpid. intros Heq.
  apply append_inj_l, append_inj_l, append_inj_l in Heq. by apply append_inj_r in Heq.
Qed.

Lemma threadLogFilePath_same_process_witness :
  ThreadId (markerRecord "t1" 0 threadLogsStartMarker)
  = ThreadId (markerRecord "t1" 4 threadLogsEndMarker).
Proof.
  apply (threadLogFilePath_same_process
           (markerRecord "t1" 0 threadLogsStartMarker)
           (markerRecord "t1" 4 threadLogsEndMarker)); reflexivity.
Defined.

(** ** The tracker: calls that fail *)



(** X23. The start marker of a new thread whose file can be opened
    and not written to: [Write] returns the error of the write, and
    the thread is in the tracker all the same, with the start of that
    record and its file open, the file existing from then on. *)
Theorem Write_failed_first_write (ll : LogLine) (slw : SyncLogWriter) (w : World) :
  threadsMetadata slw !! ThreadId ll = None ->
  Message ll = threadLogsStartMarker ->
  threadLogFilePath ll ∉ open_denied w ->
  threadLogFilePath ll ∈ write_denied w ->
  snd (Write ll (slw, w))
  = Some (errors_Wrap (os_PathError "write" (threadLogFilePath ll))
            ("error occurred while writing to [" +:+ threadLogFilePath ll +:+ "]"))
  ∧ threadsMetadata (fst (Write ll (slw, w))).1
    = <[ThreadId ll := newSegment ll]> (threadsMetadata slw)
  ∧ files (fst (Write ll (slw, w))).2 !! threadLogFilePath ll
    = Some (default "" (files w !! threadLogFilePath ll)).
Proof.
  intros Hmd Hmsg Hod Hwd. unfold Write. cbn [fst]. rewrite Hmd.
  unfold initialize. rewrite Hmsg.
  replace (string_eqb threadLogsStartMarker threadLogsStartMarker) with true
    by (symmetry; by apply string_eqb_true).
  cbn [negb]. unfold os_OpenFile. rewrite decide_False by done.
  destruct (files w !! threadLogFilePath ll) as [old|] eqn:Hold;
    unfold writeLogLine, File_Write; cbn [logFd logFilepath].
  - rewrite decide_True by done. cbn [fst snd threadsMetadata]. by rewrite Hold.
  - rewrite decide_True by done. cbn [fst snd threadsMetadata files with_files].
    by rewrite lookup_insert_eq.
Qed.

Lemma Write_failed_first_write_witness :
  snd (Write (markerRecord "t1" 0 threadLogsStartMarker) (NewLogWriter, readOnlyWorld))
  = Some (errors_Wrap
            (os_PathError "write"
               (threadLogFilePath (markerRecord "t1" 0 threadLogsStartMarker)))
            ("error occurred while writing to ["
               +:+ threadLogFilePath (markerRecord "t1" 0 threadLogsStartMarker) +:+ "]"))
  ∧ threadsMetadata
      (fst (Write (markerRecord "t1" 0 threadLogsStartMarker) (NewLogWriter, readOnlyWorld))).1
    = <[ThreadId (markerRecord "t1" 0 threadLogsStartMarker)
          := newSegment (markerRecord "t1" 0 threadLogsStartMarker)]>
        (threadsMetadata NewLogWriter)
  ∧ files (fst (Write (markerRecord "t1" 0 threadLogsStartMarker)
                  (NewLogWriter, readOnlyWorld))).2
      !! threadLogFilePath (markerRecord "t1" 0 threadLogsStartMarker)
    = Some (default ""
              (files readOnlyWorld
                 !! threadLogFilePath (markerRecord "t1" 0 threadLogsStartMarker))).
Proof.
  apply (Write_failed_first_write (markerRecord "t1" 0 threadLogsStartMarker)
           NewLogWriter readOnlyWorld).
  - reflexivity.
  - reflexivity.
  - apply not_elem_of_empty.
  - change ("mergedlogs/p1-t1.log" ∈ ({["mergedlogs/p1-t1.log"]} : gset string)).
    by apply elem_of_singleton_2.
Defined.

(** ** Query A: a wider range *)

(** X24. A wider range is answered with more: the threads reported
    for a range are reported, in the same order, for every range that
    holds it, the map being visited in the same order. *)
Theorem GetActiveThreadCountBetweenInterval_widens
    (order : list (string * threadFileMetadata)) (t1 t2 t1' t2' : time.Time) :
  t1' <= t1 -> t2 <= t2' ->
  sublist (GetActiveThreadCountBetweenInterval order t1 t2)
          (GetActiveThreadCountBetweenInterval order t1' t2').
Proof.
  intros H1 H2. rewrite !GetActive_filter. apply fmap_sublist.
  induction order as [|e order IH]; [done|].
  rewrite !filter_cons.
  destruct (decide (activeIn t1 t2 e = true)) as [Ha|Ha];
    destruct (decide (activeIn t1' t2' e = true)) as [Hb|Hb].
  - by apply sublist_skip.
  - exfalso. apply Hb. apply activeIn_spec. apply activeIn_spec in Ha. lia.
  - by apply sublist_cons.
  - exact IH.
Qed.

Lemma GetActiveThreadCountBetweenInterval_widens_witness :
  sublist (GetActiveThreadCountBetweenInterval
             (canonicalOrder threeThreads) (atSecond 3) (atSecond 4))
          (GetActiveThreadCountBetweenInterval
             (canonicalOrder threeThreads) (atSecond 1) (atSecond 9)).
Proof.
  apply (GetActiveThreadCountBetweenInterval_widens (canonicalOrder threeThreads)).
  - apply Z.leb_le. vm_compute. reflexivity.
  - apply Z.leb_le. vm_compute. reflexivity.
Defined.

(** ** Reading raw logs that are not well formed *)

Lemma ProcessRawLogFiles_loop_taken entries recss : ∀ st,
  Forall2 (taken st.2) entries recss ->
  Forall (fun e => e = None) (WriteAll_errors (concat recss) st) ->
  foldl (fun st dirEntry =>
           fst (convertProcessLogFile (filepath_Join InputLogsDirPath dirEntry) st))
        st entries
  = WriteAll (concat recss) st.
Proof.
  intros st Htaken. remember (st.2) as w eqn:Hw.
  assert (raw_files st.2 = raw_files w) as Hraw by (by subst w). clear Hw.
  revert st Hraw.
  induction Htaken as [|entry recs entries recss Hentry _ IH]; intros st Hraw Herrs; [done|].
  cbn [concat foldl] in *. rewrite WriteAll_errors_app in Herrs.
  apply Forall_app in Herrs as [Herrs1 Herrs2].
  rewrite WriteAll_app.
  assert (fst (convertProcessLogFile (filepath_Join InputLogsDirPath entry) st)
          = WriteAll recs st) as ->.
  { unfold taken in Hentry. unfold convertProcessLogFile. rewrite Hraw.
    destruct (raw_files w !! filepath_Join InputLogsDirPath entry) as [fd|].
    2:{ by subst recs. }
    destruct Hentry as (lines1 & rest & -> & Hparse & Hrest).
    rewrite convertLines_app, (convertLines_WriteAll _ _ st Hparse Herrs1).
    destruct rest as [|bad rest]; [done|]. destruct Hrest as [err Hbad].
    cbn [convertLines]. by rewrite Hbad. }
  apply IH; [|done]. destruct (WriteAll_input recs st) as [_ ->]. exact Hraw.
Qed.

(** X25. What [ProcessRawLogFiles] does with an input that is not
    well formed: an entry that cannot be opened is passed over, a file
    is read up to its first line that is no log line, the files after
    it are read all the same, and no error is returned. The tracker is
    left as the records so taken leave it, as long as [Write] accepts
    them. *)
Theorem ProcessRawLogFiles_takes_what_it_can
    (st : State) (entries : list string) (recss : list (list LogLine)) :
  input_dir st.2 = Ok entries ->
  Forall2 (taken st.2) entries recss ->
  Forall (fun e => e = None) (WriteAll_errors (concat recss) st) ->
  ProcessRawLogFiles st = (WriteAll (concat recss) st, None).
Proof.
  intros Hdir Htaken Herrs. unfold ProcessRawLogFiles. rewrite Hdir.
  by rewrite (ProcessRawLogFiles_loop_taken entries recss st).
Qed.

Lemma ProcessRawLogFiles_takes_what_it_can_witness :
  ProcessRawLogFiles (NewLogWriter, partialInputWorld)
  = (WriteAll [ markerRecord "t1" 0 threadLogsStartMarker;
                markerRecord "t2" 1 threadLogsStartMarker ]
       (NewLogWriter, partialInputWorld), None).
Proof.
  apply (ProcessRawLogFiles_takes_what_it_can (NewLogWriter, partialInputWorld)
           ["a.log"; "gone.log"; "b.log"]
           [ [markerRecord "t1" 0 threadLogsStartMarker]; [];
             [markerRecord "t2" 1 threadLogsStartMarker] ]).
  - reflexivity.
  - constructor.
    { exists ["p1:t1::worker 2020-08-09 18:59:00,000 - **START**"],
             ["this is not a log line";
              "p1:t1::worker 2020-08-09 18:59:04,000 - **END**"].
      split; [reflexivity|]. split.
      - repeat constructor; vm_compute; reflexivity.
      - exists LogLineParseErr. vm_compute. reflexivity. }
    constructor; [reflexivity|].
    constructor; [|constructor].
    exists ["p1:t2::worker 2020-08-09 18:59:01,000 - **START**"], [].
    split; [reflexivity|]. split; [|exact I].
    repeat constructor; vm_compute; reflexivity.
  - vm_compute. repeat constructor.
Defined.
